(** * SPC engine of [src/index.tsx]: a shallow embedding

    The development follows the computation core of the dashboard: the
    text ingestor ([parseLine]), the subgrouper ([processedData]), the four
    chart strategies ([chartStats]) and the capability indices computed in
    [StatisticsDashboard]; then the rows and columns of the preview table
    ([DataGridWorkspace]) and the scales with which [SPCChart] places
    points, bars, limits and grid lines.  The markup itself is not
    modelled.

    Numbers.  A JavaScript number is an IEEE-754 double.  The model keeps
    the three kinds of value the code can tell apart, [NaN], the two
    infinities and the finite values, and computes on finite values
    exactly, in [Q]: there is no rounding, no overflow and a single zero.
    [Math.sqrt], which has no exact rational result, is a parameter of the
    engine (section [Engine]).

    Strings.  A string is a list of code units; only the code units below
    256 are modelled, so the only white space is the Latin-1 one. *)

From Stdlib Require Import QArith Qabs Qminmax Qpower Lqa ZArith List Ascii String Bool Lia.
From stdpp Require Import gmap.
Import ListNotations.

Local Open Scope Q_scope.

(** ** Numbers *)

Inductive number : Type :=
| NaN : number
| Infinity (negative : bool) : number
| Fin (q : Q) : number.

Definition Qlt_bool (a b : Q) : bool := negb (Qle_bool b a).

Definition Qneg_bool (q : Q) : bool := Qlt_bool q 0.

Module Num.

(** [a + b] *)
Definition add (a b : number) : number :=
  match a, b with
  | NaN, _ | _, NaN => NaN
  | Infinity s, Infinity t => if Bool.eqb s t then Infinity s else NaN
  | Infinity s, Fin _ => Infinity s
  | Fin _, Infinity t => Infinity t
  | Fin x, Fin y => Fin (x + y)
  end.

(** [a - b] *)
Definition sub (a b : number) : number :=
  match a, b with
  | NaN, _ | _, NaN => NaN
  | Infinity s, Infinity t => if Bool.eqb s t then NaN else Infinity s
  | Infinity s, Fin _ => Infinity s
  | Fin _, Infinity t => Infinity (negb t)
  | Fin x, Fin y => Fin (x - y)
  end.

(** [a * b] *)
Definition mul (a b : number) : number :=
  match a, b with
  | NaN, _ | _, NaN => NaN
  | Infinity s, Infinity t => Infinity (xorb s t)
  | Infinity s, Fin y => if Qeq_bool y 0 then NaN else Infinity (xorb s (Qneg_bool y))
  | Fin x, Infinity t => if Qeq_bool x 0 then NaN else Infinity (xorb (Qneg_bool x) t)
  | Fin x, Fin y => Fin (x * y)
  end.

(** [a / b]; a finite divisor that is zero yields [NaN] or an infinity,
    never a finite value. *)
Definition div (a b : number) : number :=
  match a, b with
  | NaN, _ | _, NaN => NaN
  | Infinity _, Infinity _ => NaN
  | Infinity s, Fin y => Infinity (xorb s (Qneg_bool y))
  | Fin _, Infinity _ => Fin 0
  | Fin x, Fin y =>
      if Qeq_bool y 0 then (if Qeq_bool x 0 then NaN else Infinity (Qneg_bool x))
      else Fin (x / y)
  end.

(** [a < b] *)
Definition lt (a b : number) : bool :=
  match a, b with
  | NaN, _ | _, NaN => false
  | Infinity s, Infinity t => s && negb t
  | Infinity s, Fin _ => s
  | Fin _, Infinity t => negb t
  | Fin x, Fin y => Qlt_bool x y
  end.

(** [a > b] *)
Definition gt (a b : number) : bool := lt b a.

(** [a <= b] *)
Definition le (a b : number) : bool :=
  match a, b with
  | NaN, _ | _, NaN => false
  | Infinity s, Infinity t => s || negb t
  | Infinity s, Fin _ => s
  | Fin _, Infinity t => negb t
  | Fin x, Fin y => Qle_bool x y
  end.

(** Truthiness of a number: [0] and [NaN] are falsy. *)
Definition truthy (a : number) : bool :=
  match a with
  | NaN => false
  | Infinity _ => true
  | Fin x => negb (Qeq_bool x 0)
  end.

(** [a || b] on numbers. *)
Definition or (a b : number) : number := if truthy a then a else b.

Definition of_Z (z : Z) : number := Fin (inject_Z z).

Definition of_nat (n : nat) : number := of_Z (Z.of_nat n).

End Num.

Declare Scope num_scope.
Delimit Scope num_scope with num.
Bind Scope num_scope with number.
Infix "+" := Num.add : num_scope.
Infix "-" := Num.sub : num_scope.
Infix "*" := Num.mul : num_scope.
Infix "/" := Num.div : num_scope.

Definition isNaN (n : number) : bool :=
  match n with NaN => true | _ => false end.

(** [Math.abs] *)
Definition Math_abs (a : number) : number :=
  match a with
  | NaN => NaN
  | Infinity _ => Infinity false
  | Fin x => Fin (Qabs x)
  end.

(** [Math.max] of two arguments: [NaN] if either is. *)
Definition Math_max (a b : number) : number :=
  match a, b with
  | NaN, _ | _, NaN => NaN
  | _, _ => if Num.lt a b then b else a
  end.

(** [Math.min] of two arguments: [NaN] if either is. *)
Definition Math_min (a b : number) : number :=
  match a, b with
  | NaN, _ | _, NaN => NaN
  | _, _ => if Num.lt b a then b else a
  end.

(** [Math.max(...xs)]: the empty maximum is [-Infinity]. *)
Definition Math_max_spread (xs : list number) : number :=
  fold_left Math_max xs (Infinity true).

(** [Math.min(...xs)]: the empty minimum is [+Infinity]. *)
Definition Math_min_spread (xs : list number) : number :=
  fold_left Math_min xs (Infinity false).

(** [Math.pow(b, e)] for the exponents the code passes, which are positive
    integers ([2], and [2 * (i + 1)] for an array index [i]). *)
Definition Math_pow (b : number) (e : nat) : number :=
  match e with
  | O => Fin 1
  | _ =>
      match b with
      | NaN => NaN
      | Infinity s => Infinity (s && Nat.odd e)
      | Fin x => Fin (x ^ Z.of_nat e)
      end
  end.

(** A number that is finite and equal, as a rational, to [q]. *)
Definition is_value (n : number) (q : Q) : Prop :=
  match n with
  | Fin x => x == q
  | _ => False
  end.

(** ** Strings *)

Definition chars (s : string) : list ascii := list_ascii_of_string s.

Definition code (c : ascii) : nat := nat_of_ascii c.

(** White space and line terminators below code unit 256: TAB, LF, VT, FF,
    CR, SP and NBSP.  This is both what [trim] strips and what [\s]
    matches. *)
Definition isWhiteSpace (c : ascii) : bool :=
  let n := code c in
  ((9 <=? n) && (n <=? 13))%nat || (n =? 32)%nat || (n =? 160)%nat.

Fixpoint trimStart (s : list ascii) : list ascii :=
  match s with
  | c :: s' => if isWhiteSpace c then trimStart s' else s
  | [] => []
  end.

Definition trimEnd (s : list ascii) : list ascii := rev (trimStart (rev s)).

(** [s.trim()] *)
Definition trim (s : list ascii) : list ascii := trimEnd (trimStart s).

(** The character class [[,\t\s]] of the separator pattern. *)
Definition isSeparator (c : ascii) : bool :=
  (code c =? 44)%nat || (code c =? 9)%nat || isWhiteSpace c.

(** [s.split(/[,\t\s]+/)].  The pattern matches a maximal, non-empty run of
    separators; the pieces between the matches are returned, including the
    empty piece before a leading and after a trailing separator, and the
    empty string is split into one empty piece.  [cur] is the piece being
    read, reversed, and [inSep] tells that the last character belonged to a
    separator run. *)
Fixpoint split_go (inSep : bool) (cur : list ascii) (s : list ascii)
  : list (list ascii) :=
  match s with
  | [] => [rev cur]
  | c :: s' =>
      if isSeparator c then
        if inSep then split_go true cur s'
        else rev cur :: split_go true [] s'
      else split_go false (c :: cur) s'
  end.

Definition split_separators (s : list ascii) : list (list ascii) :=
  split_go false [] s.

(** [s.split('\n')] *)
Fixpoint split_lines_go (cur : list ascii) (s : list ascii)
  : list (list ascii) :=
  match s with
  | [] => [rev cur]
  | c :: s' =>
      if (code c =? 10)%nat then rev cur :: split_lines_go [] s'
      else split_lines_go (c :: cur) s'
  end.

Definition split_lines (s : list ascii) : list (list ascii) :=
  split_lines_go [] s.

(** ** [parseFloat] *)

Definition isDigit (c : ascii) : bool :=
  ((48 <=? code c) && (code c <=? 57))%nat.

Definition digitValue (c : ascii) : Z := Z.of_nat (code c) - 48.

(** The longest run of decimal digits at the head of [s], and the rest. *)
Fixpoint spanDigits (s : list ascii) : list ascii * list ascii :=
  match s with
  | c :: s' =>
      if isDigit c then let (ds, r) := spanDigits s' in (c :: ds, r)
      else ([], s)
  | [] => ([], [])
  end.

Definition digitsValue (ds : list ascii) : Z :=
  fold_left (fun acc c => (10 * acc + digitValue c)%Z) ds 0%Z.

Fixpoint isPrefix (p s : list ascii) : bool :=
  match p, s with
  | [], _ => true
  | a :: p', b :: s' => (code a =? code b)%nat && isPrefix p' s'
  | _ :: _, [] => false
  end.

(** The exponent part at the head of [s]: [e] or [E], an optional sign and
    at least one digit.  Returns its value and what follows it; an
    incomplete exponent part does not belong to the literal, and is left
    unread with exponent 0. *)
Definition scanExponent (s : list ascii) : Z * list ascii :=
  match s with
  | c :: r =>
      if (code c =? 101)%nat || (code c =? 69)%nat then
        let '(neg, r') :=
          match r with
          | d :: r'' =>
              if (code d =? 43)%nat then (false, r'')
              else if (code d =? 45)%nat then (true, r'')
              else (false, r)
          | [] => (false, r)
          end in
        match spanDigits r' with
        | ([], _) => (0%Z, s)
        | (ds, rest) => (if neg then (- digitsValue ds)%Z else digitsValue ds, rest)
        end
      else (0%Z, s)
  | [] => (0%Z, s)
  end.

(** The longest prefix of [s] that is a decimal literal (an optional sign,
    then [Infinity], or digits with an optional fraction and exponent, or a
    fraction with an optional exponent): its value and what follows it. *)
Definition scanDecimalLiteral (s : list ascii) : option (number * list ascii) :=
  let '(neg, s1) :=
    match s with
    | c :: r =>
        if (code c =? 43)%nat then (false, r)
        else if (code c =? 45)%nat then (true, r)
        else (false, s)
    | [] => (false, s)
    end in
  if isPrefix (chars "Infinity") s1 then Some (Infinity neg, skipn 8 s1)
  else
    let '(ip, r1) := spanDigits s1 in
    let '(fp, r2) :=
      match r1 with
      | c :: r => if (code c =? 46)%nat then spanDigits r else ([], r1)
      | [] => ([], r1)
      end in
    match ip ++ fp with
    | [] => None
    | ds =>
        let '(e, r3) := scanExponent r2 in
        let v := inject_Z (digitsValue ds) * 10 ^ (e - Z.of_nat (length fp)) in
        Some (Fin (if neg then - v else v), r3)
    end.

(** [parseFloat(s)]: leading white space is skipped, then the longest
    prefix that is a decimal literal is converted; [NaN] when there is no
    such prefix.  Whatever follows the prefix is ignored. *)
Definition parseFloat (s : list ascii) : number :=
  match scanDecimalLiteral (trimStart s) with
  | Some (v, _) => v
  | None => NaN
  end.

(** [parseLine] *)
Definition parseLine_chars (line : list ascii) : list number :=
  let parts := split_separators (trim line) in
  List.filter (fun n => negb (isNaN n)) (List.map parseFloat parts).

Definition parseLine (line : string) : list number :=
  parseLine_chars (chars line).

Definition LF : string := String (ascii_of_nat 10) EmptyString.

(** ** Constants table *)

Record Constants := mkConstants { A2 : number; D3 : number; D4 : number; d2 : number }.

Definition STAT_CONSTANTS_2 : Constants :=
  {| A2 := Fin 1.880; D3 := Fin 0; D4 := Fin 3.267; d2 := Fin 1.128 |}.

Definition STAT_CONSTANTS_10 : Constants :=
  {| A2 := Fin 0.308; D3 := Fin 0.223; D4 := Fin 1.777; d2 := Fin 3.078 |}.

Definition STAT_CONSTANTS : gmap Z Constants :=
  list_to_map
    [ (2%Z, STAT_CONSTANTS_2);
      (3%Z, {| A2 := Fin 1.023; D3 := Fin 0; D4 := Fin 2.574; d2 := Fin 1.693 |});
      (4%Z, {| A2 := Fin 0.729; D3 := Fin 0; D4 := Fin 2.282; d2 := Fin 2.059 |});
      (5%Z, {| A2 := Fin 0.577; D3 := Fin 0; D4 := Fin 2.114; d2 := Fin 2.326 |});
      (6%Z, {| A2 := Fin 0.483; D3 := Fin 0; D4 := Fin 2.004; d2 := Fin 2.534 |});
      (7%Z, {| A2 := Fin 0.419; D3 := Fin 0.076; D4 := Fin 1.924; d2 := Fin 2.704 |});
      (8%Z, {| A2 := Fin 0.373; D3 := Fin 0.136; D4 := Fin 1.864; d2 := Fin 2.847 |});
      (9%Z, {| A2 := Fin 0.337; D3 := Fin 0.184; D4 := Fin 1.816; d2 := Fin 2.970 |});
      (10%Z, STAT_CONSTANTS_10) ].

(** [STAT_CONSTANTS[n] || STAT_CONSTANTS[2]]: a key that is not in the table
    reads as [undefined], which is falsy. *)
Definition selectConstants (n : Z) : Constants :=
  match STAT_CONSTANTS !! n with
  | Some c => c
  | None => STAT_CONSTANTS_2
  end.

(** ** Data points and settings *)

Inductive ChartType := xbar_r | imr | ewma | cusum.

Inductive Phase := phase1 | phase2.

Record DataPoint := mkDataPoint {
  dp_id : nat;
  dp_value : number;
  dp_range : option number;
  dp_originalValue : option number;
  dp_sampleSize : option Z;
  dp_subgroup : option (list number)
}.

(** The state of [App] that the computation reads.  A field that the user
    can leave empty ([''] in the source) is an [option].  [subgroupSize] is
    the result of [parseInt]: an integer, or [None] for [NaN]. *)
Record Settings := mkSettings {
  chartType : ChartType;
  phase : Phase;
  subgroupSize : option Z;
  targetMean : option number;
  targetSigma : option number;
  lambda : number;
  ewmaL : number;
  cusumHParam : number;
  cusumKParam : number
}.

(** ** Array helpers *)

(** [xs.slice(a, b)] for [0 <= a <= b]. *)
Definition slice {A} (a b : nat) (xs : list A) : list A :=
  firstn (b - a) (skipn a xs).

(** [xs.map((x, i) => f x i)], from index [i]. *)
Fixpoint mapi_from {A B} (f : A -> nat -> B) (i : nat) (xs : list A) : list B :=
  match xs with
  | [] => []
  | x :: xs' => f x i :: mapi_from f (S i) xs'
  end.

Definition mapi {A B} (f : A -> nat -> B) (xs : list A) : list B :=
  mapi_from f 0 xs.

(** [xs.forEach((x, i) => ...)] where the callback updates the variables
    [s] of the enclosing function. *)
Fixpoint forEach_from {A St} (f : St -> A -> nat -> St) (i : nat) (xs : list A) (s : St) : St :=
  match xs with
  | [] => s
  | x :: xs' => forEach_from f (S i) xs' (f s x i)
  end.

Definition forEach {A St} (f : St -> A -> nat -> St) (xs : list A) (s : St) : St :=
  forEach_from f 0 xs s.

(** ** Mean *)

(** [data.length || 1] *)
Definition length_or_1 {A} (data : list A) : nat :=
  if (length data =? 0)%nat then 1%nat else length data.

Definition calculateMean (data : list number) : number :=
  (fold_left Num.add data (Fin 0) / Num.of_nat (length_or_1 data))%num.

(** ** Subgrouper *)

Definition is_empty {A} (xs : list A) : bool :=
  match xs with [] => true | _ => false end.

(** The flat reading sequence of the raw text. *)
Definition allValues (rawData : string) : list number :=
  let lines :=
    List.filter (fun l => negb (is_empty (trim l))) (split_lines (chars rawData)) in
  concat (List.map parseLine_chars lines).

Definition isGrouped (ct : ChartType) (subgroupSize : option Z) : bool :=
  match ct with
  | xbar_r => true
  | ewma | cusum =>
      match subgroupSize with Some s => (1 <? s)%Z | None => false end
  | imr => false
  end.

(** [chartType === 'xbar-r' ? Math.max(2, subgroupSize) : subgroupSize];
    [None] is [NaN]. *)
Definition groupSize (ct : ChartType) (subgroupSize : option Z) : option Z :=
  match ct with
  | xbar_r => option_map (Z.max 2) subgroupSize
  | _ => subgroupSize
  end.

Definition mkGroup (groups : list DataPoint) (chunk : list number) (size : Z) : DataPoint :=
  {| dp_id := length groups + 1;
     dp_value := calculateMean chunk;
     dp_range := Some (Math_max_spread chunk - Math_min_spread chunk)%num;
     dp_originalValue := None;
     dp_sampleSize := Some size;
     dp_subgroup := Some chunk |}.

(** The loop [for (let i = 0; i < allValues.length; i += size)], run for at
    most [fuel] iterations.  [size] is at least 2 wherever the loop is
    reached, so an iteration always advances [i]. *)
Fixpoint group_loop (fuel : nat) (allValues : list number) (size : Z)
    (i : nat) (groups : list DataPoint) : list DataPoint :=
  match fuel with
  | O => groups
  | S fuel' =>
      if (i <? length allValues)%nat then
        let chunk := slice i (i + Z.to_nat size) allValues in
        let groups' :=
          if (Z.of_nat (length chunk) =? size)%Z
          then groups ++ [mkGroup groups chunk size]
          else groups in
        group_loop fuel' allValues size (i + Z.to_nat size)%nat groups'
      else groups
  end.

(** The value of [processedData] once [allValues] is known. *)
Definition processValues (allValues : list number) (ct : ChartType)
    (subgroupSize : option Z) : list DataPoint :=
  if isGrouped ct subgroupSize then
    match groupSize ct subgroupSize with
    | Some size => group_loop (length allValues) allValues size 0 []
    | None => []
    end
  else
    mapi (fun val i =>
            {| dp_id := i + 1; dp_value := val; dp_range := None;
               dp_originalValue := Some val; dp_sampleSize := None;
               dp_subgroup := None |}) allValues.

Definition processedData (rawData : string) (ct : ChartType)
    (subgroupSize : option Z) : list DataPoint :=
  processValues (allValues rawData) ct subgroupSize.

(** The size of the rows of the preview table in [DataGridWorkspace]:
    [chartType === 'xbar-r' ? Math.max(2, subgroupSize || 5) : (subgroupSize || 1)]. *)
Definition DataGridWorkspace_size (ct : ChartType) (subgroupSize : option Z) : Z :=
  let or_else (d : Z) :=
    match subgroupSize with
    | Some s => if (s =? 0)%Z then d else s
    | None => d
    end in
  match ct with
  | xbar_r => Z.max 2 (or_else 5%Z)
  | _ => or_else 1%Z
  end.

(** ** Chart results *)

Record Point := mkPoint { px : nat; py : number }.

(** A control limit is a scalar, or one value per point (EWMA). *)
Inductive Limit :=
| Scalar (v : number)
| PerPoint (vs : list number).

(** A chart handed to the renderer; titles, axis labels and colours are left
    out.  [overlay] is the CUSUM observation series with its target. *)
Record Chart := mkChart {
  data : list Point;
  ucl : Limit;
  lcl : Limit;
  cl : number;
  overlay : option (list Point * number)
}.

(** The result of [chartStats].  The fields [ucl], [lcl] and [cl] that only
    the result for no data carries, and that no consumer reads, are left
    out. *)
Record ChartStats := mkChartStats {
  mainChart : option Chart;
  secondChart : option Chart;
  sigma : number;
  mean : number
}.

(** [Number(v)] for a state field that is a number or ['']. *)
Definition Number (v : option number) : number :=
  match v with Some n => n | None => Fin 0 end.

Definition is_phase2 (p : Phase) : bool :=
  match p with phase2 => true | phase1 => false end.

(** [v !== ''] *)
Definition present {A} (v : option A) : bool :=
  match v with Some _ => true | None => false end.

Definition usePhase2 (st : Settings) : bool :=
  is_phase2 (phase st) && present (targetMean st) && present (targetSigma st).

(** ** Capability indices *)

Record Capability := mkCapability {
  cp : option number;
  cpk : option number;
  cpu : option number;
  cpl : option number
}.

(** The computation at the head of [StatisticsDashboard].  [usl] and [lsl]
    are [None] when the field is empty; [null] is [None].  [cpu] and [cpl]
    are local to the branch [sigma > 0] in the source and are reported here
    as [None] outside of it. *)
Definition StatisticsDashboard (stats : ChartStats) (usl lsl : option number)
  : Capability :=
  let mean := mean stats in
  let sigma := sigma stats in
  let u := usl in
  let l := lsl in
  if Num.gt sigma (Fin 0) then
    let cp :=
      match u, l with
      | Some u, Some l => Some ((u - l) / (Fin 6 * sigma))%num
      | _, _ => None
      end in
    let cpu :=
      match u with
      | Some u => Some ((u - mean) / (Fin 3 * sigma))%num
      | None => None
      end in
    let cpl :=
      match l with
      | Some l => Some ((mean - l) / (Fin 3 * sigma))%num
      | None => None
      end in
    let cpk :=
      match cpu, cpl with
      | Some a, Some b => Some (Math_min a b)
      | Some a, None => Some a
      | None, Some b => Some b
      | None, None => None
      end in
    {| cp := cp; cpk := cpk; cpu := cpu; cpl := cpl |}
  else {| cp := None; cpk := None; cpu := None; cpl := None |}.

(** ** Chart engine *)

Section Engine.

(** [Math.sqrt] on the finite non-negative numbers.  The language only
    fixes its value at zero. *)
Variable sqrtQ : Q -> Q.

Definition Math_sqrt (a : number) : number :=
  match a with
  | NaN => NaN
  | Infinity s => if s then NaN else Infinity false
  | Fin x => if Qneg_bool x then NaN else Fin (sqrtQ x)
  end.

(** [data.length - 1 || 1] *)
Definition length_minus_1_or_1 {A} (data : list A) : Z :=
  let d := (Z.of_nat (length data) - 1)%Z in
  if (d =? 0)%Z then 1%Z else d.

Definition calculateStdDev (data : list number) : number :=
  let mean := calculateMean data in
  Math_sqrt
    (fold_left (fun sq n => sq + Math_pow (n - mean) 2) data (Fin 0)
     / Num.of_Z (length_minus_1_or_1 data))%num.

(** The loop that fills [mrs] in the I-MR branch. *)
Definition movingRanges (values : list number) : list number :=
  List.map (fun i => Math_abs (nth i values NaN - nth (i - 1) values NaN)%num)
    (seq 1 (length values - 1)).

(** The variables that the EWMA callback updates. *)
Record EwmaState := mkEwmaState {
  ew_z : number;
  ewmaData : list Point;
  uclTime : list number;
  lclTime : list number
}.

Definition ewma_term (lambda : number) (i : nat) : number :=
  Math_sqrt ((lambda / (Fin 2 - lambda))
             * (Fin 1 - Math_pow (Fin 1 - lambda) (2 * (i + 1))))%num.

Definition ewma_step (lambda L mean sigma : number)
    (s : EwmaState) (x : number) (i : nat) : EwmaState :=
  let z := (lambda * x + (Fin 1 - lambda) * ew_z s)%num in
  let term := ewma_term lambda i in
  {| ew_z := z;
     ewmaData := ewmaData s ++ [ {| px := i + 1; py := z |} ];
     uclTime := uclTime s ++ [ (mean + L * sigma * term)%num ];
     lclTime := lclTime s ++ [ (mean - L * sigma * term)%num ] |}.

(** The variables that the CUSUM callback updates; [cu_cp] and [cu_cm] are
    the accumulators [cp] and [cm]. *)
Record CusumState := mkCusumState {
  cu_cp : number;
  cu_cm : number;
  cpData : list Point;
  cmData : list Point
}.

Definition cusum_step (mean K : number)
    (s : CusumState) (x : number) (i : nat) : CusumState :=
  let cp := Math_max (Fin 0) (x - (mean + K) + cu_cp s)%num in
  let cm := Math_max (Fin 0) ((mean - K) - x + cu_cm s)%num in
  {| cu_cp := cp;
     cu_cm := cm;
     cpData := cpData s ++ [ {| px := i + 1; py := cp |} ];
     cmData := cmData s ++ [ {| px := i + 1; py := cm |} ] |}.

(** [d.range || 0] *)
Definition range_or_0 (d : DataPoint) : number :=
  match dp_range d with
  | Some r => Num.or r (Fin 0)
  | None => Fin 0
  end.

(** [processedData[0]?.sampleSize || 2] *)
Definition sampleSize_or_2 (processedData : list DataPoint) : Z :=
  match processedData with
  | d :: _ =>
      match dp_sampleSize d with
      | Some s => if (s =? 0)%Z then 2%Z else s
      | None => 2%Z
      end
  | [] => 2%Z
  end.

Definition chartStats (processedData : list DataPoint) (st : Settings)
  : ChartStats :=
  if (length processedData =? 0)%nat then
    {| mainChart := None; secondChart := None; sigma := Fin 0; mean := Fin 0 |}
  else
    let usePhase2 := usePhase2 st in
    let values := List.map dp_value processedData in
    let points := List.map (fun d => {| px := dp_id d; py := dp_value d |}) processedData in
    match chartType st with
    | imr =>
        let mean := if usePhase2 then Number (targetMean st) else calculateMean values in
        let mrs := movingRanges values in
        let meanMR := calculateMean mrs in
        let sigma := if usePhase2 then Number (targetSigma st) else (meanMR / Fin 1.128)%num in
        let cl := mean in
        let ucl := (mean + Fin 3 * sigma)%num in
        let lcl := (mean - Fin 3 * sigma)%num in
        let secondChart :=
          {| data := mapi (fun mr i => {| px := i + 2; py := mr |}) mrs;
             ucl := Scalar (Fin 3.267 * meanMR)%num;
             lcl := Scalar (Fin 0);
             cl := meanMR;
             overlay := None |} in
        {| mainChart := Some {| data := points; ucl := Scalar ucl; lcl := Scalar lcl;
                                cl := cl; overlay := None |};
           secondChart := Some secondChart;
           sigma := sigma;
           mean := cl |}
    | xbar_r =>
        let ranges := List.map range_or_0 processedData in
        let meanVal := if usePhase2 then Number (targetMean st) else calculateMean values in
        let meanRange := calculateMean ranges in
        let n := sampleSize_or_2 processedData in
        let constants := selectConstants n in
        let sigma := (meanRange / d2 constants)%num in
        let cl := meanVal in
        let ucl := (meanVal + A2 constants * meanRange)%num in
        let lcl := (meanVal - A2 constants * meanRange)%num in
        let secondChart :=
          {| data := mapi (fun r i => {| px := i + 1; py := r |}) ranges;
             ucl := Scalar (D4 constants * meanRange)%num;
             lcl := Scalar (D3 constants * meanRange)%num;
             cl := meanRange;
             overlay := None |} in
        {| mainChart := Some {| data := points; ucl := Scalar ucl; lcl := Scalar lcl;
                                cl := cl; overlay := None |};
           secondChart := Some secondChart;
           sigma := sigma;
           mean := cl |}
    | ewma =>
        let mean := if usePhase2 then Number (targetMean st) else calculateMean values in
        let sigma := if usePhase2 then Number (targetSigma st) else calculateStdDev values in
        let L := ewmaL st in
        let s :=
          forEach (ewma_step (lambda st) L mean sigma) values
            {| ew_z := mean; ewmaData := []; uclTime := []; lclTime := [] |} in
        {| mainChart := Some {| data := ewmaData s; ucl := PerPoint (uclTime s);
                                lcl := PerPoint (lclTime s); cl := mean;
                                overlay := None |};
           secondChart := None;
           sigma := sigma;
           mean := mean |}
    | cusum =>
        let mean := if usePhase2 then Number (targetMean st) else calculateMean values in
        let sigma := if usePhase2 then Number (targetSigma st) else calculateStdDev values in
        let K := (cusumKParam st * sigma)%num in
        let H := (cusumHParam st * sigma)%num in
        let s :=
          forEach (cusum_step mean K) values
            {| cu_cp := Fin 0; cu_cm := Fin 0; cpData := []; cmData := [] |} in
        let obs := mapi (fun v i => {| px := i + 1; py := v |}) values in
        {| mainChart := Some {| data := cpData s; ucl := Scalar H; lcl := Scalar (Fin 0);
                                cl := Fin 0; overlay := Some (obs, mean) |};
           secondChart := Some {| data := cmData s; ucl := Scalar H; lcl := Scalar (Fin 0);
                                  cl := Fin 0; overlay := Some (obs, mean) |};
           sigma := sigma;
           mean := mean |}
    end.

End Engine.

(** ** Definitions used by the statements *)

(** *** Rational arithmetic, as the specification words it *)

Definition Qsum (qs : list Q) : Q := fold_right Qplus 0 qs.

Definition Qmean (qs : list Q) : Q := Qsum qs / inject_Z (Z.of_nat (length qs)).

Definition Qmax_list (qs : list Q) : Q :=
  match qs with
  | [] => 0
  | q :: qs' => fold_left Qmax qs' q
  end.

Definition Qmin_list (qs : list Q) : Q :=
  match qs with
  | [] => 0
  | q :: qs' => fold_left Qmin qs' q
  end.

(** A scalar limit that is finite and equal to [q]. *)
Definition limit_value (l : Limit) (q : Q) : Prop :=
  match l with
  | Scalar v => is_value v q
  | PerPoint _ => False
  end.

(** A number within [tol] of [q]. *)
Definition is_near (n : number) (q tol : Q) : Prop :=
  match n with
  | Fin x => Qabs (x - q) <= tol
  | _ => False
  end.

Definition limit_near (l : Limit) (q tol : Q) : Prop :=
  match l with
  | Scalar v => is_near v q tol
  | PerPoint _ => False
  end.

(** An index that is present, finite and equal to [q]. *)
Definition index_value (o : option number) (q : Q) : Prop :=
  match o with
  | Some n => is_value n q
  | None => False
  end.

(** *** Ingestor *)

(** The tokens of a line, as the specification words them: the maximal runs
    of characters that are not separators.  [cur] is the run being read,
    reversed. *)
Fixpoint tokens_go (cur : list ascii) (s : list ascii) : list (list ascii) :=
  match s with
  | [] => if is_empty cur then [] else [rev cur]
  | c :: s' =>
      if isSeparator c then
        if is_empty cur then tokens_go [] s' else rev cur :: tokens_go [] s'
      else tokens_go (c :: cur) s'
  end.

Definition tokens (line : list ascii) : list (list ascii) := tokens_go [] line.

(** The number a token starts with, if any. *)
Definition numericPrefix (tok : list ascii) : option number :=
  option_map fst (scanDecimalLiteral tok).


(** The results of [f] on the elements it accepts, in order. *)
Fixpoint accepted {A B} (f : A -> option B) (xs : list A) : list B :=
  match xs with
  | [] => []
  | x :: xs' =>
      match f x with
      | Some y => y :: accepted f xs'
      | None => accepted f xs'
      end
  end.

Definition nonempty {A} (xs : list A) : bool := negb (is_empty xs).

(** *** Subgrouper *)

(** The [k]-th window of size [n], counting from 0. *)
Definition window {A} (n k : nat) (xs : list A) : list A :=
  firstn n (skipn (k * n) xs).

(** The subgroup made of the window [w], the [k]-th from 0. *)
Definition subgroup_of (size : Z) (k : nat) (w : list number) : DataPoint :=
  {| dp_id := k + 1;
     dp_value := calculateMean w;
     dp_range := Some (Math_max_spread w - Math_min_spread w)%num;
     dp_originalValue := None;
     dp_sampleSize := Some size;
     dp_subgroup := Some w |}.

(** *** Charts *)

(** The X-bar/R branch of [chartStats] with the constants row made
    explicit. *)
Definition xbar_r_stats (c : Constants) (processedData : list DataPoint)
    (st : Settings) : ChartStats :=
  let values := List.map dp_value processedData in
  let ranges := List.map range_or_0 processedData in
  let meanVal := if usePhase2 st then Number (targetMean st) else calculateMean values in
  let meanRange := calculateMean ranges in
  {| mainChart :=
       Some {| data := List.map (fun d => {| px := dp_id d; py := dp_value d |}) processedData;
               ucl := Scalar (meanVal + A2 c * meanRange)%num;
               lcl := Scalar (meanVal - A2 c * meanRange)%num;
               cl := meanVal; overlay := None |};
     secondChart :=
       Some {| data := mapi (fun r i => {| px := i + 1; py := r |}) ranges;
               ucl := Scalar (D4 c * meanRange)%num;
               lcl := Scalar (D3 c * meanRange)%num;
               cl := meanRange; overlay := None |};
     sigma := (meanRange / d2 c)%num;
     mean := meanVal |}.

(** The moving ranges of a series, as the specification words them: the
    absolute differences of consecutive readings. *)
Fixpoint consecutiveRanges (qs : list Q) : list Q :=
  match qs with
  | a :: (b :: _) as rest => Qabs (b - a) :: consecutiveRanges rest
  | _ => []
  end.

(** The EWMA statistic as a recurrence from [z0]. *)
Fixpoint ewma_z (lam z0 : number) (xs : list number) : list number :=
  match xs with
  | [] => []
  | x :: xs' =>
      let z := (lam * x + (Fin 1 - lam) * z0)%num in
      z :: ewma_z lam z xs'
  end.

(** The width factor of the EWMA limits at the [i]-th point, counting
    from 1. *)
Definition term (sqrtQ : Q -> Q) (lam : number) (i : nat) : number :=
  Math_sqrt sqrtQ
    ((lam / (Fin 2 - lam)) * (Fin 1 - Math_pow (Fin 1 - lam) (2 * i)))%num.



(** The sum of squared deviations and the quotient under the root in
    [calculateStdDev], on rationals. *)
Definition squaredDeviations (m : Q) (qs : list Q) : Q :=
  fold_left (fun sq n => sq + (n - m) ^ 2) qs 0.

Definition variance (qs : list Q) : Q :=
  squaredDeviations (fold_left Qplus qs 0 / inject_Z (Z.of_nat (length_or_1 qs))) qs
  / inject_Z (length_minus_1_or_1 qs).

Definition noCapability : Capability :=
  {| cp := None; cpk := None; cpu := None; cpl := None |}.

(** *** Settings *)

(** The settings the application starts with, for a given chart. *)
Definition initialSettings (ct : ChartType) (n : option Z) : Settings :=
  {| chartType := ct; phase := phase1; subgroupSize := n;
     targetMean := None; targetSigma := None;
     lambda := Fin 0.1; ewmaL := Fin 2.7;
     cusumHParam := Fin 5; cusumKParam := Fin 0.5 |}.




(** An implementation of the square root, to run the engine: the root is
    rounded down to a multiple of [2 ^ -53]. *)
Definition sqrt_floor (q : Q) : Q :=
  Z.sqrt (Qnum q * 2 ^ 106 / Zpos (Qden q)) # (2 ^ 53).

(** ** Preview table of [DataGridWorkspace] *)

Record Row := mkRow { row_id : nat; cols : list number }.

(** The loop that fills [rows] in the grouped preview; every chunk is kept,
    also a last one that is shorter than [size]. *)
Fixpoint rows_loop (fuel : nat) (allValues : list number) (size : Z)
    (i : nat) (rows : list Row) : list Row :=
  match fuel with
  | O => rows
  | S fuel' =>
      if (i <? length allValues)%nat then
        let chunk := slice i (i + Z.to_nat size) allValues in
        rows_loop fuel' allValues size (i + Z.to_nat size)%nat
          (rows ++ [ {| row_id := length rows + 1; cols := chunk |} ])
      else rows
  end.

(** [parsedData] of [DataGridWorkspace]. *)
Definition DataGridWorkspace_parsedData (rawData : string) (ct : ChartType)
    (subgroupSize : option Z) : list Row :=
  let lines :=
    List.filter (fun r => negb (is_empty (trim r))) (split_lines (chars rawData)) in
  let allValues := concat (List.map parseLine_chars lines) in
  if isGrouped ct subgroupSize then
    let size := DataGridWorkspace_size ct subgroupSize in
    rows_loop (length allValues) allValues size 0 []
  else
    mapi (fun line i => {| row_id := i + 1; cols := parseLine_chars line |}) lines.

(** [maxCols] of [DataGridWorkspace]; [None] is [NaN]. *)
Definition DataGridWorkspace_maxCols (parsedData : list Row) (ct : ChartType)
    (subgroupSize : option Z) : option Z :=
  if isGrouped ct subgroupSize then
    match ct with
    | xbar_r => option_map (Z.max 2) subgroupSize
    | _ => subgroupSize
    end
  else
    Some (fold_left Z.max (List.map (fun r => Z.of_nat (length (cols r))) parsedData) 1%Z).

(** The cells of a row that the table shows: the columns
    [Array.from({length: maxCols})], each with [row.cols[colIdx]] or a dash
    ([None]) when there is no such reading.  A [maxCols] that is [NaN] gives
    no column. *)
Definition displayedCells (maxCols : option Z) (r : Row) : list (option number) :=
  match maxCols with
  | Some m => List.map (fun colIdx => nth_error (cols r) colIdx) (seq 0 (Z.to_nat m))
  | None => []
  end.

(** ** Scales of [SPCChart] *)

Inductive PlotType := plot_line | plot_bar.

(** The properties of [SPCChart] that its geometry reads.  The component
    draws nothing but a notice when [data] is empty; the definitions of the
    module are the quantities it computes otherwise. *)
Record ChartProps := mkChartProps {
  p_data : list Point;
  p_ucl : Limit;
  p_lcl : Limit;
  p_cl : number;
  p_secondarySeries : list (list Point);
  p_target : option number;
  p_plotType : PlotType
}.

Module SPCChart.

Definition width : number := Fin 800.
Definition height : number := Fin 400.

Definition padding_top : number := Fin 30.
Definition padding_bottom : number := Fin 40.
Definition padding_left : number := Fin 60.

Definition padding_right (p : ChartProps) : number :=
  if (0 <? length (p_secondarySeries p))%nat then Fin 60 else Fin 20.

Definition plotWidth (p : ChartProps) : number :=
  (width - padding_left - padding_right p)%num.

Definition plotHeight : number := (height - padding_top - padding_bottom)%num.

(** The values of a limit, as they are pushed on [yValues]. *)
Definition limitValues (l : Limit) : list number :=
  match l with
  | Scalar v => [v]
  | PerPoint vs => vs
  end.

Definition yValues (p : ChartProps) : list number :=
  List.map py (p_data p) ++ limitValues (p_ucl p) ++ limitValues (p_lcl p)
  ++ [p_cl p]
  ++ match p_plotType p with plot_bar => [Fin 0] | plot_line => [] end.

Definition minY (p : ChartProps) : number := Math_min_spread (yValues p).
Definition maxY (p : ChartProps) : number := Math_max_spread (yValues p).

Definition yRange (p : ChartProps) : number :=
  Num.or ((maxY p - minY p) * Fin 1.15)%num (Fin 1).

Definition yMinPadded (p : ChartProps) : number := Math_min (Fin 0) (minY p).

(** [data.length - 1 || 1] and [data.length || 1] are [length_minus_1_or_1]
    and [length_or_1]. *)
Definition xScale (p : ChartProps) (index : nat) : number :=
  (padding_left
   + (Num.of_nat index / Num.of_Z (length_minus_1_or_1 (p_data p))) * plotWidth p)%num.

Definition yScale (p : ChartProps) (val : number) : number :=
  (height - padding_bottom - ((val - yMinPadded p) / yRange p) * plotHeight)%num.








Definition barWidth (p : ChartProps) : number :=
  (plotWidth p / Num.of_nat (length_or_1 (p_data p)) * Fin 0.7)%num.


End SPCChart.


(** [yRange] for finite extremes [mn] and [mx]. *)
Definition yRange_of (mn mx : Q) : Q :=
  if Qeq_bool ((mx - mn) * 1.15) 0 then 1 else (mx - mn) * 1.15.


(** ** Definitions used by the statements on the preview, the ingestor and
    the charts *)

(** The row of the preview made of the window [w], the [k]-th from 0. *)
Definition row_of (k : nat) (w : list number) : Row :=
  {| row_id := k + 1; cols := w |}.

(** The number of windows of size [n] that hold at least one of [len]
    readings. *)
Definition chunkCount (len n : nat) : nat := ((len + n - 1) / n)%nat.

(** A token that starts, after an optional sign, with [Infinity], with a
    digit, or with a dot and a digit. *)
Definition startsNumeric (tok : list ascii) : bool :=
  let s1 :=
    match tok with
    | c :: r => if (code c =? 43)%nat || (code c =? 45)%nat then r else tok
    | [] => tok
    end in
  isPrefix (chars "Infinity") s1
  || match s1 with
     | c :: r =>
         isDigit c
         || ((code c =? 46)%nat && match r with d :: _ => isDigit d | [] => false end)
     | [] => false
     end.

(** The mean that [calculateMean] computes on rationals. *)
Definition rawMean (qs : list Q) : Q :=
  fold_left Qplus qs 0 / inject_Z (Z.of_nat (length_or_1 qs)).


(** *** Charts to run the scales on *)


(** A line chart of the readings 10 and 12 with limits 13 and 9 and centre
    line 11: every value is far from zero. *)
Definition offsetChart : ChartProps :=
  {| p_data := [ {| px := 1; py := Fin 10 |}; {| px := 2; py := Fin 12 |} ];
     p_ucl := Scalar (Fin 13); p_lcl := Scalar (Fin 9); p_cl := Fin 11;
     p_secondarySeries := []; p_target := None; p_plotType := plot_line |}.

(** A bar chart of the values 0 and 2 with limit 5, over the observations 7
    and 9 and their target 8. *)
Definition barChart : ChartProps :=
  {| p_data := [ {| px := 1; py := Fin 0 |}; {| px := 2; py := Fin 2 |} ];
     p_ucl := Scalar (Fin 5); p_lcl := Scalar (Fin 0); p_cl := Fin 0;
     p_secondarySeries := [ [ {| px := 1; py := Fin 7 |}; {| px := 2; py := Fin 9 |} ] ];
     p_target := Some (Fin 8); p_plotType := plot_bar |}.

(** * Properties *)

(** ** Arithmetic on finite numbers *)

Lemma Qlt_bool_iff (a b : Q) : Qlt_bool a b = true <-> a < b.
Proof.
  unfold Qlt_bool. rewrite negb_true_iff, <- not_true_iff_false, Qle_bool_iff.
  split; intros H; lra.
Qed.

Lemma Qeq_bool_false (a : Q) : ~ a == 0 -> Qeq_bool a 0 = false.
Proof.
  intros H. apply not_true_iff_false. intros E. now apply Qeq_bool_eq in E.
Qed.

Lemma is_value_near (n : number) (a q tol : Q) :
  is_value n a -> Qle_bool (Qabs (a - q)) tol = true -> is_near n q tol.
Proof.
  destruct n as [| |x]; cbn [is_value is_near]; try contradiction.
  intros Hx Hle. apply Qle_bool_iff in Hle. now rewrite Hx.
Qed.

Lemma is_value_eq (n : number) (a b : Q) :
  is_value n a -> Qeq_bool a b = true -> is_value n b.
Proof.
  destruct n as [| |x]; cbn [is_value]; try contradiction.
  intros Hx Hab. apply Qeq_bool_iff in Hab. now rewrite Hx.
Qed.

Lemma limit_value_near (l : Limit) (a q tol : Q) :
  limit_value l a -> Qle_bool (Qabs (a - q)) tol = true -> limit_near l q tol.
Proof.
  destruct l; cbn [limit_value limit_near]; [apply is_value_near | contradiction].
Qed.

Lemma index_value_eq (o : option number) (a b : Q) :
  index_value o a -> Qeq_bool a b = true -> index_value o b.
Proof.
  destruct o; cbn [index_value]; [apply is_value_eq | contradiction].
Qed.

Lemma fold_add_Fin (qs : list Q) (a : Q) :
  fold_left Num.add (List.map Fin qs) (Fin a) = Fin (fold_left Qplus qs a).
Proof.
  revert a. induction qs as [|q qs IH]; intros a; [reflexivity|].
  cbn [List.map fold_left]. cbn [Num.add]. apply IH.
Qed.

Lemma fold_left_Qplus (qs : list Q) (a : Q) :
  fold_left Qplus qs a == a + Qsum qs.
Proof.
  revert a. induction qs as [|q qs IH]; intros a; cbn.
  - lra.
  - rewrite IH. unfold Qsum. lra.
Qed.

Lemma inject_length_or_1 {A} (xs : list A) :
  Qeq_bool (inject_Z (Z.of_nat (length_or_1 xs))) 0 = false.
Proof.
  unfold length_or_1. destruct (Nat.eqb_spec (length xs) 0).
  - reflexivity.
  - apply Qeq_bool_false. unfold Qeq. cbn. lia.
Qed.

(** The division in [calculateMean] is by a non-zero count: on finite
    readings the mean is finite. *)
Lemma calculateMean_Fin (qs : list Q) :
  calculateMean (List.map Fin qs)
  = Fin (fold_left Qplus qs 0 / inject_Z (Z.of_nat (length_or_1 qs))).
Proof.
  unfold calculateMean. rewrite fold_add_Fin.
  unfold Num.of_nat, Num.of_Z, Num.div.
  assert (length_or_1 (List.map Fin qs) = length_or_1 qs) as ->.
  { unfold length_or_1. now rewrite length_map. }
  now rewrite inject_length_or_1.
Qed.

Lemma calculateMean_value (qs : list Q) :
  qs <> [] -> is_value (calculateMean (List.map Fin qs)) (Qmean qs).
Proof.
  intros Hne. rewrite calculateMean_Fin. cbn [is_value].
  unfold Qmean. rewrite fold_left_Qplus.
  assert (length_or_1 qs = length qs) as ->.
  { unfold length_or_1. destruct qs; [congruence | reflexivity]. }
  assert (~ inject_Z (Z.of_nat (length qs)) == 0).
  { destruct qs; [congruence|]. unfold Qeq. cbn. lia. }
  field. assumption.
Qed.

Lemma Math_max_Fin (a b : Q) : Math_max (Fin a) (Fin b) = Fin (Qmax a b).
Proof.
  unfold Math_max, Num.lt, Qlt_bool.
  destruct (Qle_bool b a) eqn:E; cbn [negb]; f_equal; symmetry;
    unfold Qmax, GenericMinMax.gmax;
    destruct (Qcompare a b) eqn:C; try reflexivity.
  - apply Qle_bool_iff in E. apply Qlt_alt in C. lra.
  - apply Qeq_alt in C.
    assert (Qle_bool b a = true) by (apply Qle_bool_iff; lra). congruence.
  - apply Qgt_alt in C.
    assert (Qle_bool b a = true) by (apply Qle_bool_iff; lra). congruence.
Qed.

Lemma Math_min_Fin (a b : Q) : Math_min (Fin a) (Fin b) = Fin (Qmin a b).
Proof.
  unfold Math_min, Num.lt, Qlt_bool.
  destruct (Qle_bool a b) eqn:E; cbn [negb]; f_equal; symmetry;
    unfold Qmin, GenericMinMax.gmin;
    destruct (Qcompare a b) eqn:C; try reflexivity.
  - apply Qle_bool_iff in E. apply Qgt_alt in C. lra.
  - apply Qeq_alt in C.
    assert (Qle_bool a b = true) by (apply Qle_bool_iff; lra). congruence.
  - apply Qlt_alt in C.
    assert (Qle_bool a b = true) by (apply Qle_bool_iff; lra). congruence.
Qed.

Lemma fold_max_Fin (qs : list Q) (a : Q) :
  fold_left Math_max (List.map Fin qs) (Fin a) = Fin (fold_left Qmax qs a).
Proof.
  revert a. induction qs as [|q qs IH]; intros a; [reflexivity|].
  cbn [List.map fold_left]. rewrite Math_max_Fin. apply IH.
Qed.

Lemma fold_min_Fin (qs : list Q) (a : Q) :
  fold_left Math_min (List.map Fin qs) (Fin a) = Fin (fold_left Qmin qs a).
Proof.
  revert a. induction qs as [|q qs IH]; intros a; [reflexivity|].
  cbn [List.map fold_left]. rewrite Math_min_Fin. apply IH.
Qed.

Lemma range_Fin (qs : list Q) :
  qs <> [] ->
  (Math_max_spread (List.map Fin qs) - Math_min_spread (List.map Fin qs))%num
  = Fin (Qmax_list qs - Qmin_list qs).
Proof.
  destruct qs as [|q qs]; [congruence|]. intros _.
  unfold Math_max_spread, Math_min_spread. cbn [List.map fold_left].
  change (Math_max (Infinity true) (Fin q)) with (Fin q).
  change (Math_min (Infinity false) (Fin q)) with (Fin q).
  now rewrite fold_max_Fin, fold_min_Fin.
Qed.



(** *** The standard deviation on finite readings *)

Lemma Qsquare_nonneg (x : Q) : 0 <= x ^ 2.
Proof.
  change (x ^ 2) with (x * x). unfold Qle, Qmult. cbn.
  rewrite Z.mul_1_r. apply Z.square_nonneg.
Qed.

Lemma fold_squares_Fin (m : Q) (qs : list Q) (a : Q) :
  fold_left (fun sq n => (sq + Math_pow (n - Fin m) 2)%num) (List.map Fin qs) (Fin a)
  = Fin (fold_left (fun sq n => sq + (n - m) ^ 2) qs a).
Proof.
  revert a. induction qs as [|q qs IH]; intros a; [reflexivity|].
  cbn [List.map fold_left]. rewrite <- IH. reflexivity.
Qed.

Lemma fold_squares_nonneg (m : Q) (qs : list Q) (a : Q) :
  0 <= a -> 0 <= fold_left (fun sq n => sq + (n - m) ^ 2) qs a.
Proof.
  revert a. induction qs as [|q qs IH]; intros a Ha; [exact Ha|].
  cbn [fold_left]. apply IH.
  pose proof (Qsquare_nonneg (q - m)). lra.
Qed.

Lemma fold_squares_zero (m : Q) (qs : list Q) (a : Q) :
  Forall (fun q => q == m) qs -> a == 0 ->
  fold_left (fun sq n => sq + (n - m) ^ 2) qs a == 0.
Proof.
  intros Hqs. revert a. induction Hqs as [|q qs Hq _ IH]; intros a Ha; [exact Ha|].
  cbn [fold_left]. apply IH.
  change ((q - m) ^ 2) with ((q - m) * (q - m)). rewrite Hq, Ha. ring.
Qed.

(** The divisor [data.length - 1 || 1] is never zero. *)
Lemma length_minus_1_or_1_nonzero {A} (xs : list A) :
  Qeq_bool (inject_Z (length_minus_1_or_1 xs)) 0 = false.
Proof.
  apply Qeq_bool_false. unfold Qeq. cbn. unfold length_minus_1_or_1.
  destruct (Z.eqb_spec (Z.of_nat (length xs) - 1) 0); lia.
Qed.

Lemma variance_nonneg (qs : list Q) : 0 <= variance qs.
Proof.
  unfold variance, squaredDeviations.
  set (m := fold_left Qplus qs 0 / _).
  pose proof (fold_squares_nonneg m qs 0 ltac:(lra)) as Hn.
  destruct qs as [|q qs].
  - vm_compute. discriminate.
  - set (n := fold_left _ _ _) in *.
    assert (0 < inject_Z (length_minus_1_or_1 (q :: qs))) as Hd.
    { unfold length_minus_1_or_1. cbn [length].
      destruct (Z.eqb_spec (Z.of_nat (S (length qs)) - 1) 0);
        unfold Qlt; cbn; lia. }
    apply Qle_shift_div_l; [exact Hd | lra].
Qed.

(** On finite readings [calculateStdDev] takes the root of a finite,
    non-negative quotient: it never meets a zero divisor or a negative
    radicand. *)
Lemma calculateStdDev_Fin (sqrtQ : Q -> Q) (qs : list Q) :
  calculateStdDev sqrtQ (List.map Fin qs) = Fin (sqrtQ (variance qs)).
Proof.
  unfold calculateStdDev. rewrite calculateMean_Fin, fold_squares_Fin.
  unfold Num.of_Z, Num.div.
  assert (length_minus_1_or_1 (List.map Fin qs) = length_minus_1_or_1 qs) as ->.
  { unfold length_minus_1_or_1. now rewrite length_map. }
  rewrite length_minus_1_or_1_nonzero.
  fold (squaredDeviations
          (fold_left Qplus qs 0 / inject_Z (Z.of_nat (length_or_1 qs))) qs).
  fold (variance qs). unfold Math_sqrt, Qneg_bool, Qlt_bool.
  pose proof (variance_nonneg qs) as Hv. apply Qle_bool_iff in Hv. now rewrite Hv.
Qed.

Lemma variance_single (x : Q) : variance [x] == 0.
Proof.
  unfold variance, squaredDeviations.
  assert (forall a b, a == 0 -> a / b == 0) as Hdiv by (intros a b ->; unfold Qdiv; ring).
  apply Hdiv. apply fold_squares_zero; [|reflexivity].
  constructor; [|constructor]. cbn. field.
Qed.

Lemma variance_empty : variance [] == 0.
Proof. reflexivity. Qed.

Lemma sqrt_floor_zero (q : Q) : q == 0 -> sqrt_floor q == 0.
Proof.
  intros Hq. unfold Qeq in Hq. cbn in Hq. rewrite Z.mul_1_r in Hq.
  unfold sqrt_floor. rewrite Hq. reflexivity.
Qed.

(** ** Arrays *)

Lemma mapi_from_map {A B C} (f : A -> nat -> B) (g : B -> C) (i : nat) (xs : list A) :
  List.map g (mapi_from f i xs) = mapi_from (fun a j => g (f a j)) i xs.
Proof.
  revert i. induction xs as [|x xs IH]; intros i; [reflexivity|].
  cbn. now rewrite IH.
Qed.

Lemma mapi_from_const {A} (i : nat) (xs : list A) :
  mapi_from (fun a _ => a) i xs = xs.
Proof.
  revert i. induction xs as [|x xs IH]; intros i; [reflexivity|].
  cbn. now rewrite IH.
Qed.

Lemma mapi_from_of_map {A B C} (f : B -> nat -> C) (g : A -> B) (i : nat) (xs : list A) :
  mapi_from f i (List.map g xs) = mapi_from (fun a j => f (g a) j) i xs.
Proof.
  revert i. induction xs as [|x xs IH]; intros i; [reflexivity|].
  cbn. now rewrite IH.
Qed.

Lemma length_mapi_from {A B} (f : A -> nat -> B) (i : nat) (xs : list A) :
  length (mapi_from f i xs) = length xs.
Proof.
  revert i. induction xs as [|x xs IH]; intros i; [reflexivity|].
  cbn. now rewrite IH.
Qed.

Lemma nth_map_in_range {A B} (f : A -> B) (xs : list A) (i : nat) (d : B) (d' : A) :
  (i < length xs)%nat -> nth i (List.map f xs) d = f (nth i xs d').
Proof.
  intros Hi. rewrite (nth_indep _ d (f d')) by now rewrite length_map.
  apply map_nth.
Qed.

Lemma nth_map_Fin (qs : list Q) (i : nat) :
  (i < length qs)%nat -> nth i (List.map Fin qs) NaN = Fin (nth i qs 0).
Proof. apply nth_map_in_range. Qed.

Lemma length_eqb_0 {A} (xs : list A) : xs <> [] -> (length xs =? 0)%nat = false.
Proof. intros H. apply Nat.eqb_neq. destruct xs; [congruence | cbn; lia]. Qed.

(** ** Ingestor *)

Lemma is_empty_rev {A} (xs : list A) : is_empty (rev xs) = is_empty xs.
Proof.
  destruct xs as [|x xs]; [reflexivity|]. cbn.
  destruct (rev xs); reflexivity.
Qed.

Lemma forallb_rev {A} (p : A -> bool) (xs : list A) :
  forallb p (rev xs) = forallb p xs.
Proof.
  induction xs as [|x xs IH]; [reflexivity|].
  cbn. rewrite forallb_app, IH. cbn. rewrite andb_true_r. apply andb_comm.
Qed.

(** The pieces of the split that are not empty are the tokens. *)
Lemma split_go_tokens (inSep : bool) (cur s : list ascii) :
  (inSep = true -> cur = []) ->
  List.filter nonempty (split_go inSep cur s) = tokens_go cur s.
Proof.
  revert inSep cur. induction s as [|c s IH]; intros inSep cur Hinv.
  - cbn. unfold nonempty. rewrite is_empty_rev. now destruct (is_empty cur).
  - cbn [split_go tokens_go]. destruct (isSeparator c).
    + destruct inSep.
      * rewrite (Hinv eq_refl). cbn [is_empty]. now apply IH.
      * cbn [List.filter]. unfold nonempty at 1. rewrite is_empty_rev.
        destruct (is_empty cur); cbn [negb]; now rewrite IH.
    + apply IH. discriminate.
Qed.

Lemma tokens_go_trimStart (s : list ascii) :
  tokens_go [] (trimStart s) = tokens_go [] s.
Proof.
  induction s as [|c s IH]; [reflexivity|].
  cbn [trimStart]. destruct (isWhiteSpace c) eqn:E; [|reflexivity].
  cbn [tokens_go]. unfold isSeparator. rewrite E, !orb_true_r. exact IH.
Qed.

Lemma trimStart_decompose (s : list ascii) :
  exists ws, s = ws ++ trimStart s /\ forallb isWhiteSpace ws = true.
Proof.
  induction s as [|c s (ws & Hs & Hws)].
  - now exists [].
  - cbn [trimStart]. destruct (isWhiteSpace c) eqn:E.
    + exists (c :: ws). cbn. rewrite E, Hws. split; [congruence | reflexivity].
    + now exists [].
Qed.

Lemma tokens_go_app_whitespace (ws : list ascii) (cur s : list ascii) :
  forallb isWhiteSpace ws = true ->
  tokens_go cur (s ++ ws) = tokens_go cur s.
Proof.
  intros Hws. revert cur. induction s as [|c s IH]; intros cur.
  - cbn [app]. revert cur. induction ws as [|w ws IHw]; intros cur; [reflexivity|].
    cbn in Hws. apply andb_true_iff in Hws as [Hw Hws].
    cbn [tokens_go]. unfold isSeparator. rewrite Hw, !orb_true_r.
    destruct (is_empty cur) eqn:E; now rewrite (IHw Hws).
  - cbn [app tokens_go]. destruct (isSeparator c); [|apply IH].
    destruct (is_empty cur); now rewrite IH.
Qed.

(** Trimming the line does not change its tokens. *)
Lemma tokens_trim (s : list ascii) : tokens (trim s) = tokens s.
Proof.
  unfold tokens, trim, trimEnd.
  destruct (trimStart_decompose (rev (trimStart s))) as (ws & Hs & Hws).
  rewrite <- (tokens_go_trimStart s).
  rewrite <- (rev_involutive (trimStart s)) at 2.
  rewrite Hs at 2. rewrite rev_app_distr.
  rewrite tokens_go_app_whitespace; [reflexivity|].
  now rewrite forallb_rev.
Qed.

Lemma scanDecimalLiteral_not_NaN (s : list ascii) (v : number) (r : list ascii) :
  scanDecimalLiteral s = Some (v, r) -> isNaN v = false.
Proof.
  unfold scanDecimalLiteral.
  repeat match goal with
         | |- context [match ?x with _ => _ end] => destruct x
         | |- context [if ?x then _ else _] => destruct x
         end; intros [= <- <-] || discriminate; reflexivity.
Qed.

Lemma trimStart_token (tok : list ascii) :
  forallb (fun c => negb (isSeparator c)) tok = true -> trimStart tok = tok.
Proof.
  destruct tok as [|c tok]; [reflexivity|]. cbn.
  intros H. apply andb_true_iff in H as [Hc _].
  unfold isSeparator in Hc. destruct (isWhiteSpace c); [|reflexivity].
  now rewrite !orb_true_r in Hc.
Qed.

Lemma tokens_go_no_separator (cur s : list ascii) :
  forallb (fun c => negb (isSeparator c)) cur = true ->
  Forall (fun tok => forallb (fun c => negb (isSeparator c)) tok = true) (tokens_go cur s).
Proof.
  revert cur. induction s as [|c s IH]; intros cur Hcur.
  - cbn. destruct (is_empty cur); constructor; [|constructor]. now rewrite forallb_rev.
  - cbn [tokens_go]. destruct (isSeparator c) eqn:E.
    + destruct (is_empty cur).
      * now apply IH.
      * constructor; [now rewrite forallb_rev | now apply IH].
    + apply IH. cbn. now rewrite E, Hcur.
Qed.

Lemma parseFloat_token (tok : list ascii) :
  forallb (fun c => negb (isSeparator c)) tok = true ->
  parseFloat tok = match numericPrefix tok with Some v => v | None => NaN end
  /\ (isNaN (parseFloat tok) = true <-> numericPrefix tok = None).
Proof.
  intros Htok. unfold parseFloat, numericPrefix.
  rewrite trimStart_token by assumption.
  destruct (scanDecimalLiteral tok) as [[v r]|] eqn:E; cbn.
  - rewrite (scanDecimalLiteral_not_NaN _ _ _ E). split; [reflexivity|]. split; discriminate.
  - split; [reflexivity|]. split; reflexivity.
Qed.

Lemma parseFloat_accepted (toks : list (list ascii)) :
  Forall (fun tok => forallb (fun c => negb (isSeparator c)) tok = true) toks ->
  List.filter (fun n => negb (isNaN n)) (List.map parseFloat toks)
  = accepted numericPrefix toks.
Proof.
  induction 1 as [|tok toks Htok _ IH]; [reflexivity|].
  cbn [List.map List.filter accepted].
  destruct (parseFloat_token tok Htok) as [Hv Hnan].
  destruct (numericPrefix tok) as [v|].
  - destruct (isNaN (parseFloat tok)) eqn:E.
    + destruct Hnan as [Hnone _]. discriminate (Hnone eq_refl).
    + cbn [negb]. now rewrite IH, Hv.
  - rewrite (proj2 Hnan eq_refl). exact IH.
Qed.

(** An empty piece parses to [NaN] and is filtered out. *)
Lemma parseFloat_skip_empty (pieces : list (list ascii)) :
  List.filter (fun n => negb (isNaN n)) (List.map parseFloat pieces)
  = List.filter (fun n => negb (isNaN n))
      (List.map parseFloat (List.filter nonempty pieces)).
Proof.
  induction pieces as [|p pieces IH]; [reflexivity|].
  destruct p as [|c p]; cbn [List.map List.filter nonempty is_empty negb].
  - exact IH.
  - destruct (negb (isNaN (parseFloat (c :: p)))); now rewrite IH.
Qed.



(** What [parseFloat] makes of some tokens. *)
Example parseLine_prefix_examples :
  parseLine "1.5.3" = [Fin 1.5]
  /\ parseLine "1e2x" = [Fin 100]
  /\ parseLine "-.5" = [Fin (-0.5)]
  /\ parseLine "x12" = []
  /\ parseLine ",, 7 ,," = [Fin 7]
  /\ parseLine "-Infinity" = [Infinity true]
  /\ parseLine "" = [].
Proof. vm_compute. repeat split; reflexivity. Qed.

(** ** Constants table *)

Lemma STAT_CONSTANTS_outside (n : Z) :
  (n < 2 \/ 10 < n)%Z -> STAT_CONSTANTS !! n = None.
Proof.
  intros Hn. unfold STAT_CONSTANTS. cbn [list_to_map foldr uncurry fst snd].
  repeat (rewrite lookup_insert_ne by lia).
  apply lookup_empty.
Qed.

Lemma STAT_CONSTANTS_inside (n : Z) :
  (2 <= n <= 10)%Z -> is_Some (STAT_CONSTANTS !! n).
Proof.
  intros Hn.
  assert (n = 2 \/ n = 3 \/ n = 4 \/ n = 5 \/ n = 6 \/ n = 7 \/ n = 8 \/ n = 9 \/ n = 10)%Z
    as Hcases by lia.
  repeat (destruct Hcases as [-> | Hcases]; [vm_compute; eauto |]).
  subst n. vm_compute; eauto.
Qed.

Lemma chartStats_xbar_r (sqrtQ : Q -> Q) (processedData : list DataPoint) (st : Settings) :
  processedData <> [] -> chartType st = xbar_r ->
  chartStats sqrtQ processedData st
  = xbar_r_stats (selectConstants (sampleSize_or_2 processedData)) processedData st.
Proof.
  intros Hne Hct. unfold chartStats, xbar_r_stats. rewrite Hct.
  destruct processedData; [congruence | reflexivity].
Qed.

(** C1, as amended: for a subgroup size outside [2,10] the constants lookup
    falls back to the row of n = 2, and the X-bar/R chart is computed with
    that row; the result is the one of a genuine n = 2 computation on the
    same subgroups and carries nothing that tells the fallback. *)
Theorem selectConstants_out_of_range (sqrtQ : Q -> Q) (n : Z)
    (processedData : list DataPoint) (st : Settings) :
  (n < 2 \/ 10 < n)%Z ->
  processedData <> [] -> chartType st = xbar_r ->
  sampleSize_or_2 processedData = n ->
  selectConstants n = STAT_CONSTANTS_2
  /\ chartStats sqrtQ processedData st = xbar_r_stats STAT_CONSTANTS_2 processedData st.
Proof.
  intros Hn Hne Hct Hsz.
  assert (selectConstants n = STAT_CONSTANTS_2) as Hsel.
  { unfold selectConstants. now rewrite STAT_CONSTANTS_outside. }
  split; [exact Hsel |].
  rewrite chartStats_xbar_r by assumption. now rewrite Hsz, Hsel.
Qed.

(** Eleven readings in one subgroup of size 11. *)
Lemma selectConstants_out_of_range_witness :
  let pd := processedData "1 2 3 4 5 6 7 8 9 10 11" xbar_r (Some 11%Z) in
  let st := initialSettings xbar_r (Some 11%Z) in
  selectConstants 11 = STAT_CONSTANTS_2
  /\ chartStats sqrt_floor pd st = xbar_r_stats STAT_CONSTANTS_2 pd st.
Proof.
  apply (selectConstants_out_of_range sqrt_floor 11).
  - right. lia.
  - vm_compute. discriminate.
  - reflexivity.
  - vm_compute. reflexivity.
Defined.

(** C1, as stated, fails for n = 11: eleven readings in one subgroup of
    size 11 are charted with the constants of n = 2 (A2 = 1.880), not with
    those of the nearest row n = 10, and the upper limit is 6 + 1.880 * 10. *)
Lemma selectConstants_11_counterexample :
  let pd := processedData "1 2 3 4 5 6 7 8 9 10 11" xbar_r (Some 11%Z) in
  let r := chartStats sqrt_floor pd (initialSettings xbar_r (Some 11%Z)) in
  sampleSize_or_2 pd = 11%Z
  /\ selectConstants 11 = STAT_CONSTANTS_2
  /\ selectConstants 11 <> STAT_CONSTANTS_10
  /\ match mainChart r with
     | Some c => limit_value (ucl c) (6 + 1.880 * 10)
     | None => False
     end.
Proof.
  vm_compute. repeat split; try reflexivity. discriminate.
Qed.

(** ** Subgrouper *)

(** Blank lines are skipped and the readings of the lines are concatenated. *)
Example allValues_example :
  allValues ("1,2" ++ LF ++ LF ++ "  3 x 4.5" ++ LF) = [Fin 1; Fin 2; Fin 3; Fin 4.5].
Proof. vm_compute. reflexivity. Qed.

Lemma group_loop_done (fuel : nat) (xs : list number) (size : Z) (i : nat)
    (groups : list DataPoint) :
  (length xs <= i)%nat -> group_loop fuel xs size i groups = groups.
Proof.
  intros Hi. destruct fuel as [|fuel]; [reflexivity|]. cbn [group_loop].
  destruct (Nat.ltb_spec i (length xs)); [lia | reflexivity].
Qed.

Lemma div_lt_iff (len n k : nat) :
  (0 < n)%nat -> ((k + 1) * n <= len <-> k < len / n)%nat.
Proof.
  intros Hn. pose proof (Nat.div_mod_eq len n) as Hd.
  pose proof (Nat.mod_upper_bound len n ltac:(lia)) as Hm.
  split; intros H; nia.
Qed.

Lemma length_window {A} (n k : nat) (xs : list A) :
  length (window n k xs) = Nat.min n (length xs - k * n).
Proof. unfold window. now rewrite length_firstn, length_skipn. Qed.

Lemma window_map {A B} (f : A -> B) (n k : nat) (xs : list A) :
  window n k (List.map f xs) = List.map f (window n k xs).
Proof. unfold window. now rewrite skipn_map, firstn_map. Qed.

(** The loop, entered at the start of window [k] with the [k] subgroups of
    the windows before it, and with fuel for the readings that are left,
    appends the subgroups of the full windows from [k] on. *)
Lemma group_loop_spec (n : nat) (xs : list number) (fuel k : nat)
    (groups : list DataPoint) :
  (0 < n)%nat -> length groups = k -> (length xs - k * n <= fuel)%nat ->
  group_loop fuel xs (Z.of_nat n) (k * n) groups
  = groups ++ List.map (fun j => subgroup_of (Z.of_nat n) j (window n j xs))
                (seq k (length xs / n - k)).
Proof.
  intros Hn. revert k groups.
  induction fuel as [|fuel IH]; intros k groups Hk Hfuel.
  - cbn [group_loop].
    assert (length xs / n - k = 0)%nat as ->.
    { pose proof (div_lt_iff (length xs) n k Hn). lia. }
    cbn. now rewrite app_nil_r.
  - cbn [group_loop]. rewrite Nat2Z.id.
    destruct (Nat.ltb_spec (k * n) (length xs)) as [Hlt | Hge].
    + unfold slice. replace (k * n + n - k * n)%nat with n by lia.
      fold (window n k xs). rewrite length_window.
      destruct (Z.eqb_spec (Z.of_nat (Nat.min n (length xs - k * n))) (Z.of_nat n))
        as [Hfull | Hpart].
      * assert (k < length xs / n)%nat as Hkd by (apply div_lt_iff; lia).
        replace (k * n + n)%nat with (S k * n)%nat by lia.
        rewrite IH; [| rewrite length_app; cbn; lia | lia].
        replace (length xs / n - k)%nat with (S (length xs / n - S k)) by lia.
        cbn [seq List.map]. rewrite <- app_assoc. cbn [app].
        unfold mkGroup, subgroup_of. now rewrite Hk.
      * rewrite group_loop_done by lia.
        assert (length xs / n - k = 0)%nat as ->.
        { pose proof (div_lt_iff (length xs) n k Hn). lia. }
        cbn. now rewrite app_nil_r.
    + assert (length xs / n - k = 0)%nat as ->.
      { pose proof (div_lt_iff (length xs) n k Hn). lia. }
      cbn. now rewrite app_nil_r.
Qed.

(** The fuel [processValues] gives the loop is enough: more changes nothing. *)
Lemma group_loop_fuel (n : nat) (xs : list number) (fuel : nat) :
  (0 < n)%nat -> (length xs <= fuel)%nat ->
  group_loop fuel xs (Z.of_nat n) 0 [] = group_loop (length xs) xs (Z.of_nat n) 0 [].
Proof.
  intros Hn Hfuel. change 0%nat with (0 * n)%nat.
  now rewrite !group_loop_spec by (cbn; lia).
Qed.

Lemma processValues_grouped (ct : ChartType) (n : Z) (xs : list number) :
  (2 <= n)%Z -> ct <> imr ->
  processValues xs ct (Some n)
  = List.map (fun j => subgroup_of n j (window (Z.to_nat n) j xs))
      (seq 0 (length xs / Z.to_nat n)).
Proof.
  intros Hn Hct. unfold processValues.
  assert (isGrouped ct (Some n) = true) as ->.
  { destruct ct; cbn; try reflexivity; try congruence; apply Z.ltb_lt; lia. }
  assert (groupSize ct (Some n) = Some n) as ->.
  { destruct ct; cbn; try reflexivity. f_equal. lia. }
  rewrite <- (Z2Nat.id n) at 1 2 by lia.
  change 0%nat with (0 * Z.to_nat n)%nat at 1.
  rewrite group_loop_spec by (cbn; lia).
  cbn [app]. rewrite Nat.sub_0_r. now rewrite Z2Nat.id by lia.
Qed.

Lemma processValues_ungrouped (ct : ChartType) (sz : option Z) (xs : list number) :
  isGrouped ct sz = false ->
  processValues xs ct sz
  = mapi (fun val i =>
            {| dp_id := i + 1; dp_value := val; dp_range := None;
               dp_originalValue := Some val; dp_sampleSize := None;
               dp_subgroup := None |}) xs.
Proof. intros H. unfold processValues. now rewrite H. Qed.

Lemma processValues_ungrouped_values (ct : ChartType) (sz : option Z) (xs : list number) :
  isGrouped ct sz = false ->
  List.map dp_value (processValues xs ct sz) = xs.
Proof.
  intros H. rewrite processValues_ungrouped by assumption.
  unfold mapi. rewrite mapi_from_map. cbn. apply mapi_from_const.
Qed.

Lemma processValues_ungrouped_points (ct : ChartType) (sz : option Z) (xs : list number) :
  isGrouped ct sz = false ->
  List.map (fun d => {| px := dp_id d; py := dp_value d |}) (processValues xs ct sz)
  = mapi (fun x i => {| px := i + 1; py := x |}) xs.
Proof.
  intros H. rewrite processValues_ungrouped by assumption.
  unfold mapi. now rewrite mapi_from_map.
Qed.

Lemma processValues_single_grouped (ct : ChartType) (sz : option Z) (x : number) :
  isGrouped ct sz = true -> processValues [x] ct sz = [].
Proof.
  intros Hg. destruct sz as [n|].
  - destruct ct; try discriminate.
    + unfold processValues. cbn [isGrouped groupSize option_map].
      cbn [length group_loop Nat.ltb Nat.leb].
      unfold slice. cbn [Nat.add Nat.sub skipn]. rewrite Nat.sub_0_r.
      assert (length (firstn (Z.to_nat (Z.max 2 n)) [x]) = 1%nat) as ->.
      { rewrite length_firstn. cbn. lia. }
      destruct (Z.eqb_spec (Z.of_nat 1) (Z.max 2 n)); [lia | reflexivity].
    + cbn in Hg. apply Z.ltb_lt in Hg.
      rewrite processValues_grouped by (lia || discriminate).
      rewrite Nat.div_small by (cbn; lia). reflexivity.
    + cbn in Hg. apply Z.ltb_lt in Hg.
      rewrite processValues_grouped by (lia || discriminate).
      rewrite Nat.div_small by (cbn; lia). reflexivity.
  - destruct ct; try discriminate. reflexivity.
Qed.

Lemma sampleSize_or_2_grouped (ct : ChartType) (n : Z) (xs : list number) :
  (2 <= n)%Z -> ct <> imr ->
  processValues xs ct (Some n) <> [] ->
  sampleSize_or_2 (processValues xs ct (Some n)) = n.
Proof.
  intros Hn Hct. rewrite processValues_grouped by assumption.
  destruct (length xs / Z.to_nat n)%nat; cbn; [congruence|].
  intros _. destruct (Z.eqb_spec n 0); [lia | reflexivity].
Qed.

(** C8: for a subgroup size n >= 2 the readings are walked in consecutive
    windows of n readings that do not overlap; there is one subgroup per
    full window, in order, numbered from 1, whose value is the arithmetic
    mean of the window and whose range is its maximum minus its minimum;
    the [length mod n] readings after the last full window are in no
    subgroup, and nothing in the result tells that they were dropped. *)
Theorem grouping_full_windows (ct : ChartType) (n : Z) (qs : list Q) :
  (2 <= n)%Z -> ct <> imr ->
  let groups := processValues (List.map Fin qs) ct (Some n) in
  let m := Z.to_nat n in
  length groups = (length qs / m)%nat
  /\ forall k, (k < length qs / m)%nat ->
       let w := window m k qs in
       length w = m
       /\ exists d, nth_error groups k = Some d
            /\ dp_id d = (k + 1)%nat
            /\ dp_subgroup d = Some (List.map Fin w)
            /\ dp_sampleSize d = Some n
            /\ is_value (dp_value d) (Qmean w)
            /\ dp_range d = Some (Fin (Qmax_list w - Qmin_list w)).
Proof.
  intros Hn Hct groups m. subst groups.
  rewrite processValues_grouped by assumption. fold m.
  rewrite length_map, length_seq, length_map. split; [reflexivity|].
  intros k Hk w.
  assert (length w = m) as Hw.
  { subst w. rewrite length_window. apply div_lt_iff in Hk; lia. }
  split; [exact Hw|].
  assert (w <> []) as Hne by (intros E; rewrite E in Hw; cbn in Hw; lia).
  eexists. split.
  { rewrite nth_error_map, nth_error_seq.
    destruct (Nat.ltb_spec k (length qs / m)); [|lia]. cbn. reflexivity. }
  rewrite window_map. fold w. cbn.
  repeat split; try reflexivity.
  - now apply calculateMean_value.
  - f_equal. now apply range_Fin.
Qed.

(** The example of the specification: [1,2,3,4,5] in subgroups of 2 gives
    [1,2] and [3,4], and the reading 5 is dropped. *)
Lemma grouping_full_windows_witness :
  let groups := processValues (List.map Fin [1; 2; 3; 4; 5]) xbar_r (Some 2%Z) in
  length groups = 2%nat
  /\ (exists d, nth_error groups 0 = Some d
        /\ dp_subgroup d = Some [Fin 1; Fin 2]
        /\ is_value (dp_value d) 1.5
        /\ dp_range d = Some (Fin 1))
  /\ (exists d, nth_error groups 1 = Some d
        /\ dp_subgroup d = Some [Fin 3; Fin 4]
        /\ is_value (dp_value d) 3.5
        /\ dp_range d = Some (Fin 1)).
Proof.
  intros groups.
  destruct (grouping_full_windows xbar_r 2 [1; 2; 3; 4; 5]) as [Hlen Hwin];
    [lia | discriminate |].
  split; [exact Hlen|]. split.
  - destruct (Hwin 0%nat) as (_ & d & Hd & _ & Hsub & _ & Hval & Hrange); [vm_compute; lia|].
    exists d. split; [exact Hd|]. split; [exact Hsub|].
    split; [apply (is_value_eq _ _ _ Hval); reflexivity | exact Hrange].
  - destruct (Hwin 1%nat) as (_ & d & Hd & _ & Hsub & _ & Hval & Hrange); [vm_compute; lia|].
    exists d. split; [exact Hd|]. split; [exact Hsub|].
    split; [apply (is_value_eq _ _ _ Hval); reflexivity | exact Hrange].
Defined.

(** The X-bar/R example of the specification: the subgroups [1,3] and [2,4]
    have means 2 and 3 and ranges 2 and 2, and the limits are
    2.5 +/- 1.880 * 2. *)
Example xbar_r_example :
  let pd := processedData "1 3 2 4" xbar_r (Some 2%Z) in
  let r := chartStats sqrt_floor pd (initialSettings xbar_r (Some 2%Z)) in
  List.map dp_subgroup pd = [Some [Fin 1; Fin 3]; Some [Fin 2; Fin 4]]
  /\ List.map dp_range pd = [Some (Fin 2); Some (Fin 2)]
  /\ is_value (mean r) 2.5
  /\ match mainChart r with
     | Some c => limit_value (ucl c) 6.26 /\ limit_value (lcl c) (-1.26)
     | None => False
     end.
Proof. vm_compute. repeat split; reflexivity. Qed.

(** C2, as amended: when the caller supplies a subgroup size below 2, other
    than 0, the X-bar/R chart uses the subgroup size 2, not 5: the readings
    are grouped in windows of 2 and the limits are computed with the
    constants of n = 2.  The preview table of [DataGridWorkspace] uses the
    same size. *)
Theorem subgroup_size_below_2 (sqrtQ : Q -> Q) (s : Z) (xs : list number)
    (st : Settings) :
  (s < 2)%Z -> s <> 0%Z -> chartType st = xbar_r ->
  let pd := processValues xs xbar_r (Some s) in
  groupSize xbar_r (Some s) = Some 2%Z
  /\ DataGridWorkspace_size xbar_r (Some s) = 2%Z
  /\ pd = List.map (fun j => subgroup_of 2 j (window 2 j xs)) (seq 0 (length xs / 2))
  /\ (pd <> [] -> chartStats sqrtQ pd st = xbar_r_stats STAT_CONSTANTS_2 pd st).
Proof.
  intros Hs Hs0 Hct pd.
  assert (groupSize xbar_r (Some s) = Some 2%Z) as Hsize.
  { cbn. f_equal. lia. }
  assert (pd = processValues xs xbar_r (Some 2%Z)) as Hpd.
  { subst pd. unfold processValues. cbn [isGrouped]. rewrite Hsize. reflexivity. }
  split; [exact Hsize|]. split.
  { cbn. destruct (Z.eqb_spec s 0); [contradiction | lia]. }
  split.
  { rewrite Hpd. now rewrite processValues_grouped by (lia || discriminate). }
  intros Hne. rewrite chartStats_xbar_r by assumption.
  rewrite Hpd in Hne |- *.
  rewrite sampleSize_or_2_grouped by (lia || discriminate || assumption).
  reflexivity.
Qed.

(** The subgroup size 1 on five readings. *)
Lemma subgroup_size_below_2_witness :
  let xs := allValues "1 2 3 4 5" in
  let st := initialSettings xbar_r (Some 1%Z) in
  let pd := processValues xs xbar_r (Some 1%Z) in
  groupSize xbar_r (Some 1%Z) = Some 2%Z
  /\ DataGridWorkspace_size xbar_r (Some 1%Z) = 2%Z
  /\ pd = List.map (fun j => subgroup_of 2 j (window 2 j xs)) (seq 0 (length xs / 2))
  /\ (pd <> [] -> chartStats sqrt_floor pd st = xbar_r_stats STAT_CONSTANTS_2 pd st).
Proof.
  apply (subgroup_size_below_2 sqrt_floor 1); [lia | lia | reflexivity].
Defined.

(** C2, as stated, fails for the subgroup size 1: the five readings 1..5
    are grouped as [1,2] and [3,4], with sample size 2, exactly as for the
    subgroup size 2 and not as for the subgroup size 5, and the constants
    are those of n = 2. *)
Lemma subgroup_size_1_counterexample :
  let pd := processedData "1 2 3 4 5" xbar_r (Some 1%Z) in
  List.map dp_subgroup pd = [Some [Fin 1; Fin 2]; Some [Fin 3; Fin 4]]
  /\ List.map dp_sampleSize pd = [Some 2%Z; Some 2%Z]
  /\ pd = processedData "1 2 3 4 5" xbar_r (Some 2%Z)
  /\ pd <> processedData "1 2 3 4 5" xbar_r (Some 5%Z)
  /\ selectConstants (sampleSize_or_2 pd) = STAT_CONSTANTS_2.
Proof.
  vm_compute. repeat split; try reflexivity. discriminate.
Qed.

(** ** Phase selection *)

Lemma usePhase2_phase1 (st : Settings) : phase st = phase1 -> usePhase2 st = false.
Proof. intros H. unfold usePhase2. now rewrite H. Qed.






(** ** I-MR chart *)

Lemma movingRanges_index (qs : list Q) :
  movingRanges (List.map Fin qs)
  = List.map Fin
      (List.map (fun i => Qabs (nth i qs 0 - nth (i - 1) qs 0)) (seq 1 (length qs - 1))).
Proof.
  unfold movingRanges. rewrite length_map, map_map.
  apply map_ext_in. intros i Hi. apply in_seq in Hi.
  rewrite !nth_map_Fin by lia. reflexivity.
Qed.

Lemma consecutiveRanges_index (qs : list Q) :
  List.map (fun i => Qabs (nth i qs 0 - nth (i - 1) qs 0)) (seq 1 (length qs - 1))
  = consecutiveRanges qs.
Proof.
  induction qs as [|a [|b qs] IH]; [reflexivity | reflexivity |].
  change (consecutiveRanges (a :: b :: qs))
    with (Qabs (b - a) :: consecutiveRanges (b :: qs)).
  rewrite <- IH.
  replace (length (a :: b :: qs) - 1)%nat with (S (length qs)) by (cbn; lia).
  replace (length (b :: qs) - 1)%nat with (length qs) by (cbn; lia).
  cbn [seq List.map]. f_equal.
  rewrite <- seq_shift, map_map. apply map_ext_in. intros i Hi. apply in_seq in Hi.
  destruct i as [|i]; [lia|].
  replace (S (S i) - 1)%nat with (S i) by lia.
  replace (S i - 1)%nat with i by lia.
  reflexivity.
Qed.

(** The loop over the indices computes the differences of consecutive
    readings. *)
Lemma movingRanges_Fin (qs : list Q) :
  movingRanges (List.map Fin qs) = List.map Fin (consecutiveRanges qs).
Proof. now rewrite movingRanges_index, consecutiveRanges_index. Qed.

Lemma length_consecutiveRanges (qs : list Q) :
  length (consecutiveRanges qs) = (length qs - 1)%nat.
Proof.
  rewrite <- consecutiveRanges_index. now rewrite length_map, length_seq.
Qed.

Lemma nth_consecutiveRanges (qs : list Q) (i : nat) :
  (1 <= i < length qs)%nat ->
  nth (i - 1) (consecutiveRanges qs) 0 = Qabs (nth i qs 0 - nth (i - 1) qs 0).
Proof.
  intros Hi. rewrite <- consecutiveRanges_index.
  rewrite (nth_map_in_range _ _ _ _ 0%nat) by (rewrite length_seq; lia).
  rewrite seq_nth by lia. now replace (1 + (i - 1))%nat with i by lia.
Qed.

(** C4: in phase 1, on N >= 2 finite readings, the I-MR chart has: the
    arithmetic mean of all readings as baseline mean; the N-1 moving ranges,
    each the absolute difference of a reading and the one before it (at the
    positions 1..N-1, counting from 0); sigma = meanMR / 1.128, where meanMR
    is the mean of the moving ranges; an individuals chart with centre line
    mean and limits mean +/- 3 sigma; and a moving-range chart with centre
    line meanMR, upper limit 3.267 meanMR and lower limit 0.  On
    [10,12,11,13] this gives mean 11.5, ranges [2,1,2], meanMR 1.667, sigma
    1.478 and limits 15.93 and 7.07, within 0.01. *)
Theorem imr_phase1 (sqrtQ : Q -> Q) (qs : list Q) (st : Settings) :
  (2 <= length qs)%nat -> chartType st = imr -> phase st = phase1 ->
  let r := chartStats sqrtQ (processValues (List.map Fin qs) imr (subgroupSize st)) st in
  let MR := consecutiveRanges qs in
  let meanMR := Qmean MR in
  let sg := meanMR / 1.128 in
  length MR = (length qs - 1)%nat
  /\ (forall i, (1 <= i < length qs)%nat ->
        nth (i - 1) MR 0 = Qabs (nth i qs 0 - nth (i - 1) qs 0))
  /\ is_value (mean r) (Qmean qs)
  /\ is_value (sigma r) sg
  /\ exists main second,
       mainChart r = Some main /\ secondChart r = Some second
       /\ data main = mapi (fun q i => {| px := i + 1; py := Fin q |}) qs
       /\ is_value (cl main) (Qmean qs)
       /\ limit_value (ucl main) (Qmean qs + 3 * sg)
       /\ limit_value (lcl main) (Qmean qs - 3 * sg)
       /\ data second = mapi (fun mr i => {| px := i + 2; py := Fin mr |}) MR
       /\ is_value (cl second) meanMR
       /\ limit_value (ucl second) (3.267 * meanMR)
       /\ limit_value (lcl second) 0.
Proof.
  intros HN Hct Hph r MR meanMR sg.
  assert (qs <> []) as Hqs by (intros E; rewrite E in HN; cbn in HN; lia).
  assert (MR <> []) as HMR.
  { intros E. pose proof (length_consecutiveRanges qs) as HL. fold MR in HL.
    rewrite E in HL. cbn in HL. lia. }
  split; [apply length_consecutiveRanges|].
  split; [intros i Hi; now apply nth_consecutiveRanges|].
  pose proof (calculateMean_value qs Hqs) as Hm.
  pose proof (calculateMean_value MR HMR) as Hr.
  rewrite calculateMean_Fin in Hm, Hr. cbn [is_value] in Hm, Hr.
  subst r. unfold chartStats.
  rewrite Hct, (usePhase2_phase1 st Hph).
  rewrite processValues_ungrouped_points by reflexivity.
  rewrite processValues_ungrouped_values by reflexivity.
  assert ((length (processValues (List.map Fin qs) imr (subgroupSize st)) =? 0)%nat = false)
    as ->.
  { apply length_eqb_0. rewrite processValues_ungrouped by reflexivity.
    destruct qs; [congruence | discriminate]. }
  rewrite movingRanges_Fin. fold MR. rewrite !calculateMean_Fin.
  cbn [mean sigma mainChart secondChart].
  set (m := fold_left Qplus qs 0 / inject_Z (Z.of_nat (length_or_1 qs))) in *.
  set (mr := fold_left Qplus MR 0 / inject_Z (Z.of_nat (length_or_1 MR))) in *.
  change (Fin mr / Fin 1.128)%num with (Fin (mr / 1.128)).
  cbn [Num.add Num.sub Num.mul].
  assert (mr / 1.128 == sg) as Hsg by (subst sg; now rewrite Hr).
  split; [exact Hm|]. split; [exact Hsg|].
  eexists. eexists. split; [reflexivity|]. split; [reflexivity|].
  cbn [data cl ucl lcl limit_value is_value].
  split. { unfold mapi. now rewrite mapi_from_of_map. }
  split; [exact Hm|].
  split; [now rewrite Hm, Hsg|].
  split; [now rewrite Hm, Hsg|].
  split. { unfold mapi. now rewrite mapi_from_of_map. }
  split; [exact Hr|].
  split; [now rewrite Hr|].
  reflexivity.
Qed.

(** The example of the specification, [10,12,11,13]. *)
Lemma imr_phase1_witness :
  let qs := [10; 12; 11; 13] in
  let st := initialSettings imr (Some 1%Z) in
  let r := chartStats sqrt_floor (processValues (List.map Fin qs) imr (subgroupSize st)) st in
  consecutiveRanges qs = [2; 1; 2]
  /\ is_value (mean r) 11.5
  /\ is_near (sigma r) 1.478 0.01
  /\ exists main second,
       mainChart r = Some main /\ secondChart r = Some second
       /\ is_value (cl main) 11.5
       /\ limit_near (ucl main) 15.93 0.01
       /\ limit_near (lcl main) 7.07 0.01
       /\ is_near (cl second) 1.667 0.01
       /\ limit_value (lcl second) 0.
Proof.
  intros qs st r.
  destruct (imr_phase1 sqrt_floor qs st) as
    (_ & _ & Hm & Hs & main & second & Hmain & Hsecond & _ & Hcl & Hucl & Hlcl
     & _ & Hcl2 & _ & Hlcl2);
    [cbn; lia | reflexivity | reflexivity |].
  split; [reflexivity|].
  split; [apply (is_value_eq _ _ _ Hm); reflexivity|].
  split; [apply (is_value_near _ _ _ _ Hs); reflexivity|].
  exists main, second.
  split; [exact Hmain|]. split; [exact Hsecond|].
  split; [apply (is_value_eq _ _ _ Hcl); reflexivity|].
  split; [apply (limit_value_near _ _ _ _ Hucl); reflexivity|].
  split; [apply (limit_value_near _ _ _ _ Hlcl); reflexivity|].
  split; [apply (is_value_near _ _ _ _ Hcl2); reflexivity|].
  exact Hlcl2.
Defined.

(** ** EWMA chart *)

Section Ewma.

Variable sqrtQ : Q -> Q.
Variables lam L mean sigma : number.

(** The state after the callback has run on [xs], from index [i]. *)
Lemma ewma_forEach (xs : list number) (i : nat) (s : EwmaState) :
  forEach_from (ewma_step sqrtQ lam L mean sigma) i xs s
  = {| ew_z := fold_left (fun z x => (lam * x + (Fin 1 - lam) * z)%num) xs (ew_z s);
       ewmaData := ewmaData s
                   ++ mapi_from (fun z j => {| px := j + 1; py := z |}) i
                        (ewma_z lam (ew_z s) xs);
       uclTime := uclTime s
                  ++ List.map (fun j => (mean + L * sigma * term sqrtQ lam (j + 1))%num)
                       (seq i (length xs));
       lclTime := lclTime s
                  ++ List.map (fun j => (mean - L * sigma * term sqrtQ lam (j + 1))%num)
                       (seq i (length xs)) |}.
Proof.
  revert i s. induction xs as [|x xs IH]; intros i s.
  - cbn. rewrite !app_nil_r. now destruct s.
  - cbn [forEach_from]. rewrite IH. cbn [ewma_step ew_z ewmaData uclTime lclTime].
    cbn [ewma_z length seq List.map mapi_from]. rewrite <- !app_assoc. cbn [app].
    reflexivity.
Qed.

Lemma length_ewma_z (z0 : number) (xs : list number) :
  length (ewma_z lam z0 xs) = length xs.
Proof.
  revert z0. induction xs as [|x xs IH]; intros z0; [reflexivity|].
  cbn. now rewrite IH.
Qed.

Lemma nth_ewma_z (z0 : number) (xs : list number) (i : nat) :
  (i < length xs)%nat ->
  nth i (ewma_z lam z0 xs) NaN
  = (lam * nth i xs NaN
     + (Fin 1 - lam) * (match i with O => z0 | S j => nth j (ewma_z lam z0 xs) NaN end))%num.
Proof.
  revert z0 i. induction xs as [|x xs IH]; intros z0 i Hi; [cbn in Hi; lia|].
  destruct i as [|i]; [reflexivity|].
  cbn [ewma_z nth]. cbn in Hi. rewrite IH by lia.
  destruct i; reflexivity.
Qed.

End Ewma.

(** *** The EWMA chart on finite values *)

Lemma Qpower_succ (a : Q) (n : nat) : a ^ Z.of_nat (S n) == a * a ^ Z.of_nat n.
Proof.
  rewrite Nat2Z.inj_succ, <- Z.add_1_l, Qpower_plus' by lia. reflexivity.
Qed.

Lemma Qpower_unit_interval (a : Q) (n : nat) : 0 <= a <= 1 -> 0 <= a ^ Z.of_nat n <= 1.
Proof.
  intros Ha. induction n as [|n IH]; [split; discriminate|].
  rewrite Qpower_succ. split; nra.
Qed.

Lemma Math_pow_Fin (x : Q) (e : nat) : Math_pow (Fin x) e = Fin (x ^ Z.of_nat e).
Proof. destruct e; reflexivity. Qed.

(** For 0 < lambda <= 1 the width factor is the root of a finite radicand
    that is not negative: no division by zero, no root of a negative
    number. *)
Lemma term_Fin (sqrtQ : Q -> Q) (l : Q) (i : nat) :
  0 < l <= 1 ->
  let rad := (l / (2 - l)) * (1 - (1 - l) ^ (2 * Z.of_nat i)) in
  0 <= rad /\ term sqrtQ (Fin l) i = Fin (sqrtQ rad).
Proof.
  intros Hl rad.
  assert (0 <= rad) as Hrad.
  { subst rad. replace (2 * Z.of_nat i)%Z with (Z.of_nat (2 * i)) by lia.
    pose proof (Qpower_unit_interval (1 - l) (2 * i) ltac:(lra)) as Hp.
    assert (0 < l / (2 - l)) as Hq by (apply Qlt_shift_div_l; lra).
    set (p := (1 - l) ^ Z.of_nat (2 * i)) in *. clearbody p.
    set (q := l / (2 - l)) in *. clearbody q.
    apply Qmult_le_0_compat; lra. }
  split; [exact Hrad|].
  unfold term. cbn [Num.sub Num.div]. rewrite Math_pow_Fin.
  assert (Qeq_bool (2 - l) 0 = false) as -> by (apply Qeq_bool_false; lra).
  cbn [Num.sub Num.mul]. replace (Z.of_nat (2 * i)) with (2 * Z.of_nat i)%Z by lia.
  fold rad. unfold Math_sqrt, Qneg_bool, Qlt_bool.
  apply Qle_bool_iff in Hrad. now rewrite Hrad.
Qed.

(** On finite readings, from a finite start, the smoothed values are finite
    and follow the recurrence on rationals. *)
Lemma ewma_z_Fin (l z0 : Q) (qs : list Q) :
  exists zq : list Q,
    ewma_z (Fin l) (Fin z0) (List.map Fin qs) = List.map Fin zq
    /\ length zq = length qs
    /\ forall i, (i < length qs)%nat ->
         nth i zq 0 == l * nth i qs 0
                       + (1 - l) * match i with O => z0 | S j => nth j zq 0 end.
Proof.
  revert z0. induction qs as [|q qs IH]; intros z0.
  - exists []. repeat split. cbn. intros i Hi. lia.
  - destruct (IH (l * q + (1 - l) * z0)) as (zq & Hz & Hlen & Hrec).
    exists ((l * q + (1 - l) * z0) :: zq).
    split; [cbn [List.map ewma_z Num.add Num.sub Num.mul]; now rewrite Hz|].
    split; [cbn; now rewrite Hlen|].
    intros [|i] Hi; [reflexivity|]. cbn in Hi. cbn [nth].
    rewrite (Hrec i) by lia. destruct i; reflexivity.
Qed.

(** C5: on the series x_1..x_N of the chart's values, the EWMA chart emits
    one point per reading, z_i = lambda x_i + (1 - lambda) z_i-1 with
    z_0 = mean, and its limits are sequences with one value per point,
    mean +/- L sigma term_i with
    term_i = sqrt((lambda / (2 - lambda)) (1 - (1 - lambda)^(2 i))).
    This holds for all parameter values as an identity of the operations
    of the code.  On finite readings with 0 < lambda <= 1 and a finite L,
    in particular L > 0, with a finite mean and sigma, every z_i and every
    limit is a finite number whose value is given by these formulas on the
    rationals, with the square root taken of a radicand that is never
    negative; without the supplied baseline the mean is the arithmetic
    mean of the readings and sigma the root of their sample variance. *)
Theorem ewma_recurrence (sqrtQ : Q -> Q) (pd : list DataPoint) (st : Settings) :
  pd <> [] -> chartType st = ewma ->
  let xs := List.map dp_value pd in
  let r := chartStats sqrtQ pd st in
  let lam := lambda st in
  let L := ewmaL st in
  exists main zs us ls,
    mainChart r = Some main
    /\ data main = mapi (fun z j => {| px := j + 1; py := z |}) zs
    /\ ucl main = PerPoint us /\ lcl main = PerPoint ls /\ cl main = mean r
    /\ length zs = length xs /\ length us = length xs /\ length ls = length xs
    /\ (forall i, (1 <= i <= length xs)%nat ->
         let z_prev := if (i =? 1)%nat then mean r else nth (i - 2) zs NaN in
         nth (i - 1) zs NaN = (lam * nth (i - 1) xs NaN + (Fin 1 - lam) * z_prev)%num
         /\ nth (i - 1) us NaN = (mean r + L * sigma r * term sqrtQ lam i)%num
         /\ nth (i - 1) ls NaN = (mean r - L * sigma r * term sqrtQ lam i)%num)
    /\ forall (qs : list Q) (l Lq : Q),
         xs = List.map Fin qs -> lam = Fin l -> L = Fin Lq -> 0 < l <= 1 ->
         (usePhase2 st = false ->
          is_value (mean r) (Qmean qs) /\ sigma r = Fin (sqrtQ (variance qs)))
         /\ forall m s : Q, mean r = Fin m -> sigma r = Fin s ->
            exists zq uq lq : list Q,
              zs = List.map Fin zq /\ us = List.map Fin uq /\ ls = List.map Fin lq
              /\ forall i, (1 <= i <= length qs)%nat ->
                   let z_prev := if (i =? 1)%nat then m else nth (i - 2) zq 0 in
                   let rad := (l / (2 - l)) * (1 - (1 - l) ^ (2 * Z.of_nat i)) in
                   nth (i - 1) zq 0 == l * nth (i - 1) qs 0 + (1 - l) * z_prev
                   /\ 0 <= rad
                   /\ nth (i - 1) uq 0 == m + Lq * s * sqrtQ rad
                   /\ nth (i - 1) lq 0 == m - Lq * s * sqrtQ rad.
Proof.
  intros Hne Hct xs r lam L. subst r. unfold chartStats.
  rewrite Hct, (length_eqb_0 pd Hne).
  fold xs. unfold forEach. rewrite ewma_forEach.
  cbn [mainChart mean sigma ew_z ewmaData uclTime lclTime app].
  set (m := if usePhase2 st then Number (targetMean st) else calculateMean xs).
  set (sg := if usePhase2 st then Number (targetSigma st) else calculateStdDev sqrtQ xs).
  fold lam L.
  eexists. exists (ewma_z lam m xs). eexists. eexists.
  split; [reflexivity|]. cbn [data ucl lcl cl].
  split; [reflexivity|]. split; [reflexivity|]. split; [reflexivity|]. split; [reflexivity|].
  split; [apply length_ewma_z|].
  split; [now rewrite length_map, length_seq|].
  split; [now rewrite length_map, length_seq|].
  split.
  { intros i Hi. split; [|split].
    - rewrite nth_ewma_z by lia.
      destruct i as [|[|i]]; [lia | reflexivity |].
      cbn [Nat.eqb]. replace (S (S i) - 1)%nat with (S i) by lia.
      replace (S (S i) - 2)%nat with i by lia. reflexivity.
    - rewrite (nth_map_in_range _ _ _ _ 0%nat) by (rewrite length_seq; lia).
      rewrite seq_nth by lia. now replace (0 + (i - 1) + 1)%nat with i by lia.
    - rewrite (nth_map_in_range _ _ _ _ 0%nat) by (rewrite length_seq; lia).
      rewrite seq_nth by lia. now replace (0 + (i - 1) + 1)%nat with i by lia. }
  intros qs l Lq Hxs Hlam HL Hl.
  assert (qs <> []) as Hqs.
  { intros E. subst xs. rewrite E in Hxs. destruct pd; [congruence | discriminate]. }
  split.
  { intros Hp. subst m sg. rewrite Hp, Hxs. split.
    - apply calculateMean_value, Hqs.
    - apply calculateStdDev_Fin. }
  intros mq s Hm Hs. rewrite Hm, Hs, Hxs, Hlam, HL.
  destruct (ewma_z_Fin l mq qs) as (zq & Hz & Hlen & Hrec).
  exists zq,
    (List.map (fun j => mq + Lq * s * sqrtQ ((l / (2 - l))
                 * (1 - (1 - l) ^ (2 * Z.of_nat (j + 1))))) (seq 0 (length qs))),
    (List.map (fun j => mq - Lq * s * sqrtQ ((l / (2 - l))
                 * (1 - (1 - l) ^ (2 * Z.of_nat (j + 1))))) (seq 0 (length qs))).
  split; [exact Hz|]. rewrite length_map.
  split.
  { rewrite map_map. apply map_ext. intros j.
    rewrite (proj2 (term_Fin sqrtQ l (j + 1) Hl)). reflexivity. }
  split.
  { rewrite map_map. apply map_ext. intros j.
    rewrite (proj2 (term_Fin sqrtQ l (j + 1) Hl)). reflexivity. }
  intros i Hi. cbv zeta.
  split.
  { rewrite (Hrec (i - 1)%nat) by lia.
    destruct i as [|[|i]]; [lia | reflexivity |].
    cbn [Nat.eqb]. replace (S (S i) - 1)%nat with (S i) by lia.
    replace (S (S i) - 2)%nat with i by lia. reflexivity. }
  split; [exact (proj1 (term_Fin sqrtQ l i Hl))|].
  split.
  - rewrite (nth_map_in_range _ _ _ _ 0%nat) by (rewrite length_seq; lia).
    rewrite seq_nth by lia. replace (0 + (i - 1) + 1)%nat with i by lia. reflexivity.
  - rewrite (nth_map_in_range _ _ _ _ 0%nat) by (rewrite length_seq; lia).
    rewrite seq_nth by lia. replace (0 + (i - 1) + 1)%nat with i by lia. reflexivity.
Qed.

(** The readings 7 and 9 with the initial lambda = 0.1 and L = 2.7: the
    mean is 8, the statistic is 7.9 and then 8.01, and the first limits are
    8 +/- 2.7 * sqrt 2 * 0.1, that is 8.382 and 7.618 within 0.001. *)
Lemma ewma_recurrence_witness :
  let pd := processedData "7 9" ewma (Some 1%Z) in
  let st := initialSettings ewma (Some 1%Z) in
  let r := chartStats sqrt_floor pd st in
  exists (main : Chart) (zq uq lq : list Q),
    mainChart r = Some main
    /\ data main = mapi (fun z j => {| px := j + 1; py := z |}) (List.map Fin zq)
    /\ ucl main = PerPoint (List.map Fin uq) /\ lcl main = PerPoint (List.map Fin lq)
    /\ is_value (mean r) 8
    /\ nth 0 zq 0 == 7.9 /\ nth 1 zq 0 == 8.01
    /\ Qabs (nth 0 uq 0 - 8.382) <= 0.001
    /\ Qabs (nth 0 lq 0 - 7.618) <= 0.001.
Proof.
  intros pd st r.
  destruct (ewma_recurrence sqrt_floor pd st) as
    (main & zs & us & ls & Hmain & Hdata & Hucl & Hlcl & _ & _ & _ & _ & _ & Hfin);
    [vm_compute; discriminate | reflexivity |].
  destruct (Hfin [7; 9] 0.1 2.7) as (Hph & Hval);
    [vm_compute; reflexivity | reflexivity | reflexivity | split; reflexivity || discriminate |].
  destruct (Hph eq_refl) as (Hmean & Hsigma).
  destruct (Hval (16 # 2) (sqrt_floor (variance [7; 9]))) as (zq & uq & lq & -> & -> & -> & Hrec);
    [vm_compute; reflexivity | exact Hsigma |].
  destruct (Hrec 1%nat ltac:(vm_compute; lia)) as (Hz1 & _ & Hu1 & Hl1).
  destruct (Hrec 2%nat ltac:(vm_compute; lia)) as (Hz2 & _).
  cbv zeta in Hz1, Hz2, Hu1, Hl1. cbn [Nat.eqb Nat.sub nth] in Hz1, Hz2, Hu1, Hl1.
  exists main, zq, uq, lq.
  split; [exact Hmain|]. split; [exact Hdata|]. split; [exact Hucl|]. split; [exact Hlcl|].
  split; [apply (is_value_eq _ _ _ Hmean); reflexivity|].
  split; [rewrite Hz1; reflexivity|].
  split; [rewrite Hz2, Hz1; reflexivity|].
  split.
  - rewrite Hu1. apply Qle_bool_iff. vm_compute. reflexivity.
  - rewrite Hl1. apply Qle_bool_iff. vm_compute. reflexivity.
Defined.

(** ** CUSUM chart *)

Section Cusum.

Variables target K : Q.






End Cusum.




(** ** Capability indices *)

Lemma gt_0_not_le (s : number) : Num.le s (Fin 0) = true -> Num.gt s (Fin 0) = false.
Proof.
  destruct s as [| [|] | q]; cbn; try discriminate; try reflexivity.
  intros H. apply Qle_bool_iff in H. apply not_true_iff_false.
  rewrite Qlt_bool_iff. lra.
Qed.

(** Under [sigma > 0] the divisors [6 * sigma] and [3 * sigma] are not
    zero. *)
Lemma positive_divisor (c : Q) (s : number) :
  0 < c -> Num.gt s (Fin 0) = true -> Num.truthy (Fin c * s)%num = true.
Proof.
  intros Hc. destruct s as [| [|] | q]; cbn; try discriminate.
  - intros _. rewrite Qeq_bool_false by lra. reflexivity.
  - intros H. apply Qlt_bool_iff in H. rewrite Qeq_bool_false; [reflexivity|].
    intros E. assert (0 < c * q) by (apply Qmult_lt_0_compat; assumption). lra.
Qed.

(** C7: if sigma <= 0 every capability index is null; if sigma > 0 then cp
    is (usl - lsl) / (6 sigma) when both limits are present and null
    otherwise, cpu and cpl are present with their limit, and cpk is the
    minimum of cpu and cpl when both are present, else the one that is,
    else null.  The divisors are not zero where they are used: on finite
    inputs with sigma > 0 every index that is present is finite.  The
    computation is total: an absent limit only makes the indices that depend
    on it null. *)
Theorem capability_indices (stats : ChartStats) (usl lsl : option number) :
  let c := StatisticsDashboard stats usl lsl in
  let s := sigma stats in
  let m := mean stats in
  (Num.le s (Fin 0) = true -> c = noCapability)
  /\ (Num.gt s (Fin 0) = true ->
      cp c = match usl, lsl with
             | Some u, Some l => Some ((u - l) / (Fin 6 * s))%num
             | _, _ => None
             end
      /\ cpu c = option_map (fun u => ((u - m) / (Fin 3 * s))%num) usl
      /\ cpl c = option_map (fun l => ((m - l) / (Fin 3 * s))%num) lsl
      /\ cpk c = match cpu c, cpl c with
                 | Some a, Some b => Some (Math_min a b)
                 | Some a, None => Some a
                 | None, Some b => Some b
                 | None, None => None
                 end
      /\ Num.truthy (Fin 6 * s)%num = true
      /\ Num.truthy (Fin 3 * s)%num = true)
  /\ (forall qm qs : Q, m = Fin qm -> s = Fin qs -> 0 < qs ->
      (forall u, usl = Some (Fin u) -> index_value (cpu c) ((u - qm) / (3 * qs)))
      /\ (forall l, lsl = Some (Fin l) -> index_value (cpl c) ((qm - l) / (3 * qs)))
      /\ (forall u l, usl = Some (Fin u) -> lsl = Some (Fin l) ->
          index_value (cp c) ((u - l) / (6 * qs))
          /\ index_value (cpk c) (Qmin ((u - qm) / (3 * qs)) ((qm - l) / (3 * qs))))).
Proof.
  intros c s m. subst c. unfold StatisticsDashboard. fold s m.
  split; [|split].
  - intros Hle. now rewrite (gt_0_not_le s Hle).
  - intros Hgt. rewrite Hgt. cbn [cp cpk cpu cpl].
    split; [reflexivity|]. split; [now destruct usl|]. split; [now destruct lsl|].
    split; [now destruct usl, lsl|].
    split; apply positive_divisor; try assumption; lra.
  - intros qm qs Hm Hs Hpos. rewrite Hm, Hs.
    assert (Num.gt (Fin qs) (Fin 0) = true) as -> by (now apply Qlt_bool_iff).
    assert (Qeq_bool (3 * qs) 0 = false) as H3 by (apply Qeq_bool_false; lra).
    assert (Qeq_bool (6 * qs) 0 = false) as H6 by (apply Qeq_bool_false; lra).
    cbn [cp cpk cpu cpl]. split; [|split].
    + intros u ->. cbn. rewrite H3. cbn. reflexivity.
    + intros l ->. cbn. rewrite H3. cbn. reflexivity.
    + intros u l -> ->. cbn [Num.sub Num.mul Num.div]. rewrite H3, H6.
      rewrite Math_min_Fin. cbn. split; reflexivity.
Qed.

(** The example of the specification: mean 10, sigma 1, usl 13 and lsl 7
    give cp = cpu = cpl = cpk = 1, and sigma 0 gives no index. *)
Lemma capability_indices_witness :
  let stats s := {| mainChart := None; secondChart := None;
                    sigma := Fin s; mean := Fin 10 |} in
  let c := StatisticsDashboard (stats 1) (Some (Fin 13)) (Some (Fin 7)) in
  index_value (cp c) 1 /\ index_value (cpk c) 1
  /\ index_value (cpu c) 1 /\ index_value (cpl c) 1
  /\ StatisticsDashboard (stats 0) (Some (Fin 13)) (Some (Fin 7)) = noCapability.
Proof.
  intros stats c.
  destruct (capability_indices (stats 1) (Some (Fin 13)) (Some (Fin 7)))
    as (_ & _ & Hfin).
  destruct (Hfin 10 1 eq_refl eq_refl ltac:(reflexivity)) as (Hu & Hl & Hboth).
  destruct (Hboth 13 7 eq_refl eq_refl) as (Hcp & Hcpk).
  split; [apply (index_value_eq _ _ _ Hcp); reflexivity|].
  split; [apply (index_value_eq _ _ _ Hcpk); reflexivity|].
  split; [apply (index_value_eq _ _ _ (Hu 13 eq_refl)); reflexivity|].
  split; [apply (index_value_eq _ _ _ (Hl 7 eq_refl)); reflexivity|].
  apply (proj1 (capability_indices (stats 0) (Some (Fin 13)) (Some (Fin 7)))).
  reflexivity.
Defined.

(** ** Degenerate baselines *)

Lemma StatisticsDashboard_sigma_0 (r : ChartStats) (usl lsl : option number) :
  is_value (sigma r) 0 -> StatisticsDashboard r usl lsl = noCapability.
Proof.
  intros H. unfold StatisticsDashboard.
  destruct (sigma r) as [| |q]; cbn in H; try contradiction.
  assert (Num.gt (Fin q) (Fin 0) = false) as ->; [|reflexivity].
  apply not_true_iff_false. cbn. rewrite Qlt_bool_iff. lra.
Qed.

(** C9, as amended: for a square root that maps zero to zero, the standard
    deviation of a single finite reading is exactly 0, a number and not NaN: the divisor
    [length - 1 || 1] is 1 there, and with no reading at all the result is
    0 as well.  In phase 1 the EWMA and CUSUM charts of a single reading
    then have sigma = 0, and every capability index is null. *)
Theorem stddev_single_reading (sqrtQ : Q -> Q) (x : Q) (st : Settings)
    (usl lsl : option number) :
  (forall q, q == 0 -> sqrtQ q == 0) ->
  chartType st = ewma \/ chartType st = cusum ->
  phase st = phase1 ->
  is_value (calculateStdDev sqrtQ [Fin x]) 0
  /\ is_value (calculateStdDev sqrtQ []) 0
  /\ length_minus_1_or_1 [Fin x] = 1%Z
  /\ let r := chartStats sqrtQ (processValues [Fin x] (chartType st) (subgroupSize st)) st in
     is_value (sigma r) 0
     /\ StatisticsDashboard r usl lsl = noCapability.
Proof.
  intros Hsqrt Hct Hph.
  assert (is_value (calculateStdDev sqrtQ [Fin x]) 0) as H1.
  { change [Fin x] with (List.map Fin [x]).
    rewrite calculateStdDev_Fin. apply Hsqrt, variance_single. }
  split; [exact H1|].
  split.
  { change (@nil number) with (List.map Fin []).
    rewrite calculateStdDev_Fin. apply Hsqrt, variance_empty. }
  split; [reflexivity|].
  assert (is_value (sigma (chartStats sqrtQ
            (processValues [Fin x] (chartType st) (subgroupSize st)) st)) 0) as Hs.
  { destruct (isGrouped (chartType st) (subgroupSize st)) eqn:Hg.
    - rewrite processValues_single_grouped by assumption. cbn. reflexivity.
    - rewrite processValues_ungrouped by assumption.
      unfold chartStats. rewrite (usePhase2_phase1 st Hph).
      destruct Hct as [-> | ->]; exact H1. }
  split; [exact Hs | now apply StatisticsDashboard_sigma_0].
Qed.

(** A CUSUM chart of the single reading 7, with [sqrt_floor] as square
    root. *)
Lemma stddev_single_reading_witness :
  let st := initialSettings cusum (Some 1%Z) in
  is_value (calculateStdDev sqrt_floor [Fin 7]) 0
  /\ is_value (calculateStdDev sqrt_floor []) 0
  /\ length_minus_1_or_1 [Fin 7] = 1%Z
  /\ let r := chartStats sqrt_floor (processValues [Fin 7] (chartType st) (subgroupSize st)) st in
     is_value (sigma r) 0
     /\ StatisticsDashboard r (Some (Fin 13)) (Some (Fin 7)) = noCapability.
Proof.
  apply (stddev_single_reading sqrt_floor 7).
  - exact sqrt_floor_zero.
  - right. reflexivity.
  - reflexivity.
Defined.

(** C9, as stated, fails on the reading [Infinity]: the one-reading list
    that [parseLine] returns for the token [Infinity] has the standard
    deviation [NaN], not 0, since the deviation from the mean is
    [Infinity - Infinity]; the sigma of the chart is [NaN] as well. *)
Lemma stddev_Infinity_counterexample :
  parseLine "Infinity" = [Infinity false]
  /\ calculateStdDev sqrt_floor [Infinity false] = NaN
  /\ sigma (chartStats sqrt_floor (processedData "Infinity" cusum (Some 1%Z))
              (initialSettings cusum (Some 1%Z))) = NaN.
Proof. repeat split; vm_compute; reflexivity. Qed.

(** * The renderer: scales of [SPCChart] *)

(** ** Extremes of finite lists *)

Lemma Math_min_spread_Fin (qs : list Q) :
  qs <> [] -> Math_min_spread (List.map Fin qs) = Fin (Qmin_list qs).
Proof.
  destruct qs as [|q qs]; [congruence|]. intros _.
  unfold Math_min_spread. cbn [List.map fold_left].
  change (Math_min (Infinity false) (Fin q)) with (Fin q).
  apply fold_min_Fin.
Qed.

Lemma Math_max_spread_Fin (qs : list Q) :
  qs <> [] -> Math_max_spread (List.map Fin qs) = Fin (Qmax_list qs).
Proof.
  destruct qs as [|q qs]; [congruence|]. intros _.
  unfold Math_max_spread. cbn [List.map fold_left].
  change (Math_max (Infinity true) (Fin q)) with (Fin q).
  apply fold_max_Fin.
Qed.

Lemma fold_Qmin_le (qs : list Q) (a : Q) :
  fold_left Qmin qs a <= a /\ forall q, In q qs -> fold_left Qmin qs a <= q.
Proof.
  revert a. induction qs as [|x qs IH]; intros a; cbn [fold_left].
  - split; [lra | intros q []].
  - destruct (IH (Qmin a x)) as [H1 H2].
    pose proof (Q.le_min_l a x). pose proof (Q.le_min_r a x).
    split; [lra|]. intros q [<- | Hq]; [lra | now apply H2].
Qed.

Lemma fold_Qmax_ge (qs : list Q) (a : Q) :
  a <= fold_left Qmax qs a /\ forall q, In q qs -> q <= fold_left Qmax qs a.
Proof.
  revert a. induction qs as [|x qs IH]; intros a; cbn [fold_left].
  - split; [lra | intros q []].
  - destruct (IH (Qmax a x)) as [H1 H2].
    pose proof (Q.le_max_l a x). pose proof (Q.le_max_r a x).
    split; [lra|]. intros q [<- | Hq]; [lra | now apply H2].
Qed.

Lemma Qmin_list_le (qs : list Q) (q : Q) : In q qs -> Qmin_list qs <= q.
Proof.
  destruct qs as [|x qs]; [intros []|]. cbn [Qmin_list].
  destruct (fold_Qmin_le qs x) as [H1 H2].
  intros [<- | Hq]; [exact H1 | now apply H2].
Qed.

Lemma Qmax_list_ge (qs : list Q) (q : Q) : In q qs -> q <= Qmax_list qs.
Proof.
  destruct qs as [|x qs]; [intros []|]. cbn [Qmax_list].
  destruct (fold_Qmax_ge qs x) as [H1 H2].
  intros [<- | Hq]; [exact H1 | now apply H2].
Qed.

Lemma Qmin_list_le_max (qs : list Q) : qs <> [] -> Qmin_list qs <= Qmax_list qs.
Proof.
  destruct qs as [|x qs]; [congruence|]. intros _.
  pose proof (Qmin_list_le (x :: qs) x (or_introl eq_refl)).
  pose proof (Qmax_list_ge (x :: qs) x (or_introl eq_refl)). lra.
Qed.

(** The extremes are attained. *)
Lemma fold_Qmin_In (qs : list Q) (a : Q) :
  fold_left Qmin qs a = a \/ In (fold_left Qmin qs a) qs.
Proof.
  revert a. induction qs as [|x qs IH]; intros a; cbn [fold_left]; [now left|].
  destruct (IH (Qmin a x)) as [-> | H]; [|right; now right].
  unfold Qmin, GenericMinMax.gmin. destruct (a ?= x); auto; right; now left.
Qed.

Lemma fold_Qmax_In (qs : list Q) (a : Q) :
  fold_left Qmax qs a = a \/ In (fold_left Qmax qs a) qs.
Proof.
  revert a. induction qs as [|x qs IH]; intros a; cbn [fold_left]; [now left|].
  destruct (IH (Qmax a x)) as [-> | H]; [|right; now right].
  unfold Qmax, GenericMinMax.gmax. destruct (a ?= x); auto; right; now left.
Qed.

Lemma Qmax_list_In (qs : list Q) : qs <> [] -> In (Qmax_list qs) qs.
Proof.
  destruct qs as [|x qs]; [congruence|]. intros _. cbn [Qmax_list].
  destruct (fold_Qmax_In qs x) as [-> | H]; [now left | now right].
Qed.

Lemma Qmin_list_In (qs : list Q) : qs <> [] -> In (Qmin_list qs) qs.
Proof.
  destruct qs as [|x qs]; [congruence|]. intros _. cbn [Qmin_list].
  destruct (fold_Qmin_In qs x) as [-> | H]; [now left | now right].
Qed.

(** ** Scales of [SPCChart] *)

Lemma yRange_of_pos (mn mx : Q) : mn <= mx -> 0 < yRange_of mn mx.
Proof.
  intros H. unfold yRange_of. destruct (Qeq_bool _ 0) eqn:E; [lra|].
  assert (~ (mx - mn) * 1.15 == 0) by (intros E'; apply Qeq_bool_iff in E'; congruence).
  lra.
Qed.


Lemma yValues_nonempty (p : ChartProps) : SPCChart.yValues p <> [].
Proof.
  unfold SPCChart.yValues. intros E.
  apply app_eq_nil in E as [_ E]. apply app_eq_nil in E as [_ E].
  apply app_eq_nil in E as [_ E]. discriminate.
Qed.

Section FiniteChart.

Variable p : ChartProps.
Variable vs : list Q.
Hypothesis Hvs : SPCChart.yValues p = List.map Fin vs.

Lemma finite_yValues_nonempty : vs <> [].
Proof.
  intros E. apply (yValues_nonempty p). rewrite Hvs, E. reflexivity.
Qed.

Lemma minY_Fin : SPCChart.minY p = Fin (Qmin_list vs).
Proof.
  unfold SPCChart.minY. rewrite Hvs. apply Math_min_spread_Fin, finite_yValues_nonempty.
Qed.

Lemma maxY_Fin : SPCChart.maxY p = Fin (Qmax_list vs).
Proof.
  unfold SPCChart.maxY. rewrite Hvs. apply Math_max_spread_Fin, finite_yValues_nonempty.
Qed.

Lemma yRange_Fin : SPCChart.yRange p = Fin (yRange_of (Qmin_list vs) (Qmax_list vs)).
Proof.
  unfold SPCChart.yRange. rewrite minY_Fin, maxY_Fin.
  cbn [Num.sub Num.mul]. unfold Num.or, Num.truthy, yRange_of.
  now destruct (Qeq_bool _ 0).
Qed.

Lemma yMinPadded_Fin : SPCChart.yMinPadded p = Fin (Qmin 0 (Qmin_list vs)).
Proof. unfold SPCChart.yMinPadded. rewrite minY_Fin. apply Math_min_Fin. Qed.

Lemma yRange_pos : 0 < yRange_of (Qmin_list vs) (Qmax_list vs).
Proof. apply yRange_of_pos, Qmin_list_le_max, finite_yValues_nonempty. Qed.

(** On a chart of finite values the vertical scale never divides by
    zero. *)
Lemma yScale_Fin (v : Q) :
  SPCChart.yScale p (Fin v)
  = Fin (400 - 40 - ((v - Qmin 0 (Qmin_list vs)) / yRange_of (Qmin_list vs) (Qmax_list vs)) * (400 - 30 - 40)).
Proof.
  unfold SPCChart.yScale. rewrite yMinPadded_Fin, yRange_Fin.
  unfold SPCChart.height, SPCChart.padding_bottom, SPCChart.plotHeight,
    SPCChart.padding_top, SPCChart.height.
  cbn [Num.sub Num.div Num.mul].
  rewrite Qeq_bool_false; [reflexivity|]. pose proof yRange_pos. lra.
Qed.

End FiniteChart.







(** X2: the vertical scale measures from [Math.min(0, minY)] but takes its
    range from [maxY - minY].  On a chart whose values are all positive
    and not all equal (minY < maxY), with (maxY - minY) * 1.15 < maxY, the
    largest value, which is one of the plotted values, is mapped above the
    top of the frame (y < 30): it is drawn outside the plot area.  (When
    all values are equal the range falls back to 1 and this need not
    happen.) *)
Theorem yScale_above_plot (p : ChartProps) (vs : list Q) :
  SPCChart.yValues p = List.map Fin vs ->
  0 < Qmin_list vs ->
  Qmin_list vs < Qmax_list vs ->
  (Qmax_list vs - Qmin_list vs) * 1.15 < Qmax_list vs ->
  In (Qmax_list vs) vs
  /\ exists y, SPCChart.yScale p (Fin (Qmax_list vs)) = Fin y /\ y < 30.
Proof.
  intros Hvs Hpos Hlt Hsmall.
  split; [apply Qmax_list_In, (finite_yValues_nonempty p vs Hvs)|].
  rewrite (yScale_Fin p vs Hvs). eexists. split; [reflexivity|].
  set (mn := Qmin_list vs) in *. set (mx := Qmax_list vs) in *.
  assert (Qmin 0 mn == 0) as Hmin by (apply Q.min_l; lra).
  assert (yRange_of mn mx = (mx - mn) * 1.15) as ->.
  { unfold yRange_of. rewrite Qeq_bool_false; [reflexivity | lra]. }
  assert (1 < (mx - Qmin 0 mn) / ((mx - mn) * 1.15)) as Ht.
  { apply Qlt_shift_div_l; [lra | rewrite Hmin; lra]. }
  set (t := (mx - Qmin 0 mn) / ((mx - mn) * 1.15)) in *. lra.
Qed.

(** The upper limit 13 of the chart of 10 and 12. *)
Lemma yScale_above_plot_witness :
  let vs := [10; 12; 13; 9; 11] in
  In (Qmax_list vs) vs
  /\ exists y, SPCChart.yScale offsetChart (Fin (Qmax_list vs)) = Fin y /\ y < 30.
Proof.
  apply (yScale_above_plot offsetChart [10; 12; 13; 9; 11]);
    [reflexivity | vm_compute; reflexivity ..].
Defined.



Lemma plotWidth_Fin (p : ChartProps) :
  exists pw, SPCChart.plotWidth p = Fin pw /\ 0 < pw /\ (pw == 680 \/ pw == 720).
Proof.
  unfold SPCChart.plotWidth, SPCChart.padding_right, SPCChart.width, SPCChart.padding_left.
  destruct (0 <? length (p_secondarySeries p))%nat; cbn [Num.sub];
    eexists; (split; [reflexivity|]); split; try reflexivity; [left | right]; reflexivity.
Qed.

Lemma length_minus_1_or_1_pos {A} (xs : list A) :
  xs <> [] -> 0 < inject_Z (length_minus_1_or_1 xs).
Proof.
  intros Hne. unfold length_minus_1_or_1, Qlt. cbn.
  destruct xs; [congruence|]. cbn [length].
  destruct (Z.eqb_spec (Z.of_nat (S (length xs)) - 1) 0); lia.
Qed.

Lemma xScale_Fin (p : ChartProps) (pw : Q) (i : nat) :
  SPCChart.plotWidth p = Fin pw ->
  SPCChart.xScale p i
  = Fin (60 + inject_Z (Z.of_nat i) / inject_Z (length_minus_1_or_1 (p_data p)) * pw).
Proof.
  intros Hpw. unfold SPCChart.xScale. rewrite Hpw.
  unfold SPCChart.padding_left, Num.of_nat, Num.of_Z. cbn [Num.div].
  rewrite length_minus_1_or_1_nonzero. reflexivity.
Qed.

Lemma inject_Z_nat_lt (i j : nat) :
  (i < j)%nat -> inject_Z (Z.of_nat i) < inject_Z (Z.of_nat j).
Proof. intros H. rewrite <- Zlt_Qlt. lia. Qed.

Lemma inject_Z_nat_le (i j : nat) :
  (i <= j)%nat -> inject_Z (Z.of_nat i) <= inject_Z (Z.of_nat j).
Proof. intros H. rewrite <- Zle_Qle. lia. Qed.

Lemma length_minus_1_or_1_ge_2 {A} (xs : list A) :
  (2 <= length xs)%nat ->
  inject_Z (length_minus_1_or_1 xs) == inject_Z (Z.of_nat (length xs - 1)).
Proof.
  intros H. unfold length_minus_1_or_1.
  destruct (Z.eqb_spec (Z.of_nat (length xs) - 1) 0); [lia|].
  replace (Z.of_nat (length xs) - 1)%Z with (Z.of_nat (length xs - 1)) by lia.
  reflexivity.
Qed.

(** X4: on a chart with at least one point the horizontal scale is finite
    (the divisor [data.length - 1 || 1] is never zero), puts the first
    point on the left edge of the frame, 60, and the last of two or more
    points on its right edge, grows strictly with the index, and keeps
    every point of the chart inside the frame. *)
Theorem xScale_spans_plot (p : ChartProps) :
  p_data p <> [] ->
  exists (pw : Q) (x : nat -> Q),
    SPCChart.plotWidth p = Fin pw
    /\ (forall i, SPCChart.xScale p i = Fin (x i))
    /\ x 0%nat == 60
    /\ ((2 <= length (p_data p))%nat -> x (length (p_data p) - 1)%nat == 60 + pw)
    /\ (forall i j, (i < j)%nat -> x i < x j)
    /\ (forall i, (i < length (p_data p))%nat -> 60 <= x i <= 60 + pw).
Proof.
  intros Hne. destruct (plotWidth_Fin p) as (pw & Hpw & Hpos & _).
  pose proof (length_minus_1_or_1_pos (p_data p) Hne) as Hd.
  set (d := inject_Z (length_minus_1_or_1 (p_data p))) in *.
  exists pw, (fun i => 60 + inject_Z (Z.of_nat i) / d * pw).
  split; [exact Hpw|]. split; [intros i; now apply xScale_Fin|].
  assert (forall i j, (i <= j)%nat ->
            inject_Z (Z.of_nat i) / d * pw <= inject_Z (Z.of_nat j) / d * pw) as Hmono.
  { intros i j Hij. apply Qmult_le_compat_r; [|lra].
    apply Qmult_le_compat_r; [now apply inject_Z_nat_le|].
    apply Qlt_le_weak, Qinv_lt_0_compat, Hd. }
  assert ((2 <= length (p_data p))%nat ->
          inject_Z (Z.of_nat (length (p_data p) - 1)) / d * pw == pw) as Hlast.
  { intros H2. subst d. rewrite (length_minus_1_or_1_ge_2 _ H2). field.
    intros E. unfold Qeq in E. cbn in E. lia. }
  split. { cbn beta. change (inject_Z (Z.of_nat 0)) with 0. field. lra. }
  split. { intros H2. cbn beta. rewrite (Hlast H2). reflexivity. }
  split.
  { intros i j Hij. cbn beta.
    assert (inject_Z (Z.of_nat i) / d * pw < inject_Z (Z.of_nat j) / d * pw); [|lra].
    apply Qmult_lt_compat_r; [exact Hpos|].
    apply Qmult_lt_compat_r; [now apply Qinv_lt_0_compat | now apply inject_Z_nat_lt]. }
  intros i Hi. cbn beta. split.
  - pose proof (Hmono 0%nat i ltac:(lia)) as H0.
    assert (inject_Z (Z.of_nat 0) / d * pw == 0) as E0
      by (change (inject_Z (Z.of_nat 0)) with 0; field; lra).
    lra.
  - destruct (Nat.le_gt_cases 2 (length (p_data p))) as [H2 | H1].
    + pose proof (Hmono i (length (p_data p) - 1)%nat ltac:(lia)) as H.
      rewrite (Hlast H2) in H. lra.
    + assert (i = 0%nat) as -> by lia.
      assert (inject_Z (Z.of_nat 0) / d * pw == 0) as E0
        by (change (inject_Z (Z.of_nat 0)) with 0; field; lra).
      lra.
Qed.

(** The bar chart of two values. *)
Lemma xScale_spans_plot_witness :
  exists (pw : Q) (x : nat -> Q),
    SPCChart.plotWidth barChart = Fin pw
    /\ (forall i, SPCChart.xScale barChart i = Fin (x i))
    /\ x 0%nat == 60
    /\ ((2 <= length (p_data barChart))%nat -> x (length (p_data barChart) - 1)%nat == 60 + pw)
    /\ (forall i j, (i < j)%nat -> x i < x j)
    /\ (forall i, (i < length (p_data barChart))%nat -> 60 <= x i <= 60 + pw).
Proof. apply (xScale_spans_plot barChart). discriminate. Defined.

(** X5: on a chart with two points or more the bars have a positive width,
    and the bars of two consecutive points do not overlap: the right edge
    of a bar is left of the left edge of the next. *)
Theorem bars_do_not_overlap (p : ChartProps) (i : nat) :
  (2 <= length (p_data p))%nat ->
  exists bw a b,
    SPCChart.barWidth p = Fin bw /\ 0 < bw
    /\ SPCChart.xScale p i = Fin a /\ SPCChart.xScale p (S i) = Fin b
    /\ a + bw / 2 < b - bw / 2.
Proof.
  intros H2. destruct (plotWidth_Fin p) as (pw & Hpw & Hpos & _).
  assert (p_data p <> []) as Hne by (intros E; rewrite E in H2; cbn in H2; lia).
  set (n := inject_Z (Z.of_nat (length (p_data p)))).
  assert (2 <= n) as Hn.
  { subst n. change 2 with (inject_Z (Z.of_nat 2)). now apply inject_Z_nat_le. }
  assert (SPCChart.barWidth p = Fin (pw / n * 0.7)) as Hbw.
  { unfold SPCChart.barWidth. rewrite Hpw. unfold Num.of_nat, Num.of_Z.
    assert (length_or_1 (p_data p) = length (p_data p)) as ->.
    { unfold length_or_1. destruct (p_data p); [congruence | reflexivity]. }
    fold n. cbn [Num.div Num.mul]. rewrite Qeq_bool_false by lra. reflexivity. }
  exists (pw / n * 0.7). eexists. eexists.
  split; [exact Hbw|].
  assert (0 < pw / n) as Hq by (apply Qlt_shift_div_l; lra).
  split; [lra|].
  split; [exact (xScale_Fin p pw i Hpw)|]. split; [exact (xScale_Fin p pw (S i) Hpw)|].
  rewrite (length_minus_1_or_1_ge_2 _ H2).
  assert (inject_Z (Z.of_nat (length (p_data p) - 1)) == n - 1) as ->.
  { subst n. unfold Qeq. cbn. lia. }
  assert (inject_Z (Z.of_nat (S i)) == inject_Z (Z.of_nat i) + 1) as ->.
  { unfold Qeq. cbn. lia. }
  set (k := inject_Z (Z.of_nat i)).
  assert (pw / n < pw / (n - 1)) as Hstep.
  { apply Qlt_shift_div_l; [lra|].
    assert (pw / n * (n - 1) == pw - pw / n) as -> by (field; lra). lra. }
  assert ((k + 1) / (n - 1) * pw == k / (n - 1) * pw + pw / (n - 1)) as -> by (field; lra).
  assert (pw / n * 0.7 / 2 == 0.35 * (pw / n)) as -> by (field; lra).
  lra.
Qed.

(** The two bars of the bar chart. *)
Lemma bars_do_not_overlap_witness :
  exists bw a b,
    SPCChart.barWidth barChart = Fin bw /\ 0 < bw
    /\ SPCChart.xScale barChart 0 = Fin a /\ SPCChart.xScale barChart 1 = Fin b
    /\ a + bw / 2 < b - bw / 2.
Proof. apply (bars_do_not_overlap barChart 0). cbn. lia. Defined.













(** * The preview table of [DataGridWorkspace] *)

Lemma chunkCount_spec (len n k : nat) :
  (0 < n)%nat -> (k * n < len <-> k < chunkCount len n)%nat.
Proof.
  intros Hn. unfold chunkCount.
  pose proof (Nat.div_mod_eq (len + n - 1) n) as Hd.
  pose proof (Nat.mod_upper_bound (len + n - 1) n ltac:(lia)) as Hm.
  split; intros H; nia.
Qed.


Lemma rows_loop_done (fuel : nat) (xs : list number) (size : Z) (i : nat) (rows : list Row) :
  (length xs <= i)%nat -> rows_loop fuel xs size i rows = rows.
Proof.
  intros Hi. destruct fuel as [|fuel]; [reflexivity|]. cbn [rows_loop].
  destruct (Nat.ltb_spec i (length xs)); [lia | reflexivity].
Qed.

Lemma rows_loop_spec (n : nat) (xs : list number) (fuel k : nat) (rows : list Row) :
  (0 < n)%nat -> length rows = k -> (length xs - k * n <= fuel)%nat ->
  rows_loop fuel xs (Z.of_nat n) (k * n) rows
  = rows ++ List.map (fun j => row_of j (window n j xs))
              (seq k (chunkCount (length xs) n - k)).
Proof.
  intros Hn. revert k rows.
  induction fuel as [|fuel IH]; intros k rows Hk Hfuel.
  - cbn [rows_loop].
    assert (chunkCount (length xs) n - k = 0)%nat as ->.
    { pose proof (chunkCount_spec (length xs) n k Hn). lia. }
    cbn. now rewrite app_nil_r.
  - cbn [rows_loop]. rewrite Nat2Z.id.
    destruct (Nat.ltb_spec (k * n) (length xs)) as [Hlt | Hge].
    + unfold slice. replace (k * n + n - k * n)%nat with n by lia.
      fold (window n k xs).
      assert (k < chunkCount (length xs) n)%nat as Hkd by (apply chunkCount_spec; lia).
      replace (k * n + n)%nat with (S k * n)%nat by lia.
      rewrite IH; [| rewrite length_app; cbn; lia | lia].
      replace (chunkCount (length xs) n - k)%nat
        with (S (chunkCount (length xs) n - S k)) by lia.
      cbn [seq List.map]. rewrite <- app_assoc. cbn [app].
      unfold row_of. now rewrite Hk.
    + assert (chunkCount (length xs) n - k = 0)%nat as ->.
      { pose proof (chunkCount_spec (length xs) n k Hn). lia. }
      cbn. now rewrite app_nil_r.
Qed.

Lemma firstn_window {A} (n c : nat) (xs : list A) :
  firstn (c * n) xs ++ window n c xs = firstn (S c * n) xs.
Proof.
  unfold window. replace (S c * n)%nat with (c * n + n)%nat by lia.
  apply take_take_drop.
Qed.

(** The windows 0..c-1 laid end to end are the first [c * n] readings. *)
Lemma concat_windows {A} (n c : nat) (xs : list A) :
  concat (List.map (fun j => window n j xs) (seq 0 c)) = firstn (c * n) xs.
Proof.
  induction c as [|c IH]; [reflexivity|].
  rewrite seq_S, map_app, concat_app, IH. cbn [List.map concat Nat.add].
  rewrite app_nil_r. apply firstn_window.
Qed.

Lemma mapi_from_ids {A} (i : nat) (xs : list A) :
  mapi_from (fun _ j => (j + 1)%nat) i xs = seq (i + 1) (length xs).
Proof.
  revert i. induction xs as [|x xs IH]; intros i; [reflexivity|].
  cbn [mapi_from length seq]. f_equal. apply (IH (S i)).
Qed.

Lemma preview_size_pos (ct : ChartType) (sz : option Z) :
  isGrouped ct sz = true -> (2 <= DataGridWorkspace_size ct sz)%Z.
Proof.
  destruct ct, sz as [s|]; cbn; try discriminate; intros H; try lia.
  - apply Z.ltb_lt in H. destruct (Z.eqb_spec s 0); lia.
  - apply Z.ltb_lt in H. destruct (Z.eqb_spec s 0); lia.
Qed.

Lemma parsedData_grouped (rawData : string) (ct : ChartType) (sz : option Z) :
  isGrouped ct sz = true ->
  let n := Z.to_nat (DataGridWorkspace_size ct sz) in
  DataGridWorkspace_parsedData rawData ct sz
  = List.map (fun j => row_of j (window n j (allValues rawData)))
      (seq 0 (chunkCount (length (allValues rawData)) n)).
Proof.
  intros Hg n. pose proof (preview_size_pos ct sz Hg) as Hsize.
  unfold DataGridWorkspace_parsedData. rewrite Hg. fold (allValues rawData).
  rewrite <- (Z2Nat.id (DataGridWorkspace_size ct sz)) by lia. fold n.
  change 0%nat with (0 * n)%nat at 1.
  rewrite rows_loop_spec by (cbn; lia).
  cbn [app]. now rewrite Nat.sub_0_r.
Qed.

(** In the grouped preview every row holds between one reading and a full
    chunk. *)
Lemma grouped_rows_lengths (rawData : string) (ct : ChartType) (sz : option Z) :
  isGrouped ct sz = true ->
  Forall (fun r => (1 <= length (cols r) <= Z.to_nat (DataGridWorkspace_size ct sz))%nat)
    (DataGridWorkspace_parsedData rawData ct sz).
Proof.
  intros Hg. pose proof (preview_size_pos ct sz Hg) as Hsize.
  rewrite parsedData_grouped by assumption.
  set (n := Z.to_nat (DataGridWorkspace_size ct sz)).
  assert (0 < n)%nat as Hn by (subst n; lia).
  apply List.Forall_forall. intros r Hr. apply in_map_iff in Hr as (j & <- & Hj).
  apply in_seq in Hj. cbn [cols row_of]. rewrite length_window.
  assert (j * n < length (allValues rawData))%nat by (apply chunkCount_spec; lia). lia.
Qed.

(** X9: the preview table of [DataGridWorkspace] loses no reading: the
    columns of its rows, laid end to end, are the parsed values in their
    order, and the rows are numbered 1, 2, ...  In grouped mode there is
    one row per chunk, also for a last chunk that is not full (which the
    chart drops): every row holds between 1 and [size] readings, and every
    row but the last holds exactly [size]. *)
Theorem preview_keeps_every_reading (rawData : string) (ct : ChartType) (sz : option Z) :
  let rows := DataGridWorkspace_parsedData rawData ct sz in
  concat (List.map cols rows) = allValues rawData
  /\ List.map row_id rows = seq 1 (length rows)
  /\ (isGrouped ct sz = true ->
      let n := Z.to_nat (DataGridWorkspace_size ct sz) in
      length rows = chunkCount (length (allValues rawData)) n
      /\ Forall (fun r => (1 <= length (cols r) <= n)%nat) rows
      /\ forall k r, nth_error rows k = Some r -> (S k < length rows)%nat ->
           length (cols r) = n).
Proof.
  intros rows. subst rows.
  destruct (isGrouped ct sz) eqn:Hg.
  - pose proof (preview_size_pos ct sz Hg) as Hsize.
    rewrite parsedData_grouped by assumption.
    set (n := Z.to_nat (DataGridWorkspace_size ct sz)).
    set (xs := allValues rawData).
    assert (0 < n)%nat as Hn by (subst n; lia).
    split.
    { rewrite map_map. cbn [cols row_of]. rewrite concat_windows.
      apply firstn_all2.
      destruct (Nat.le_gt_cases (length xs) (chunkCount (length xs) n * n)) as [H|H]; [exact H|].
      apply (chunkCount_spec _ _ _ Hn) in H. lia. }
    split.
    { rewrite map_map, length_map, length_seq. cbn [row_id row_of].
      rewrite <- seq_shift. apply map_ext. intros a. lia. }
    intros _. rewrite length_map, length_seq. split; [reflexivity|]. split.
    + apply List.Forall_forall. intros r Hr. apply in_map_iff in Hr as (j & <- & Hj).
      apply in_seq in Hj. cbn [cols row_of]. rewrite length_window.
      assert (j * n < length xs)%nat by (apply chunkCount_spec; lia). lia.
    + intros k r Hk Hlast. rewrite nth_error_map, nth_error_seq in Hk.
      destruct (Nat.ltb_spec k (chunkCount (length xs) n)); [|discriminate].
      cbn in Hk. injection Hk as <-. cbn [cols row_of]. rewrite length_window.
      assert (S k * n < length xs)%nat by (apply chunkCount_spec; lia). lia.
  - split; [|split; [|discriminate]].
    + unfold DataGridWorkspace_parsedData. rewrite Hg. unfold mapi.
      rewrite mapi_from_map. cbn [cols]. unfold allValues. f_equal.
      generalize 0%nat. generalize (List.filter (fun l => negb (is_empty (trim l)))
                                      (split_lines (chars rawData))).
      induction l as [|x l IH]; intros i; [reflexivity|]. cbn. now rewrite IH.
    + unfold DataGridWorkspace_parsedData. rewrite Hg. unfold mapi.
      rewrite mapi_from_map, length_mapi_from. cbn [row_id].
      apply mapi_from_ids.
Qed.

Lemma groupSize_ge_2 (ct : ChartType) (sz : option Z) (size : Z) :
  isGrouped ct sz = true -> groupSize ct sz = Some size -> (2 <= size)%Z.
Proof.
  destruct ct, sz as [s|]; cbn; try discriminate; intros H [= <-]; try lia;
    apply Z.ltb_lt in H; lia.
Qed.

Lemma processValues_by_groupSize (ct : ChartType) (sz : option Z) (size : Z)
    (xs : list number) :
  isGrouped ct sz = true -> groupSize ct sz = Some size ->
  processValues xs ct sz
  = List.map (fun j => subgroup_of size j (window (Z.to_nat size) j xs))
      (seq 0 (length xs / Z.to_nat size)).
Proof.
  intros Hg Hsize. pose proof (groupSize_ge_2 ct sz size Hg Hsize) as H2.
  unfold processValues. rewrite Hg, Hsize.
  rewrite <- (Z2Nat.id size) at 1 2 by lia.
  change 0%nat with (0 * Z.to_nat size)%nat at 1.
  rewrite group_loop_spec by (cbn; lia).
  cbn [app]. rewrite Nat.sub_0_r. now rewrite Z2Nat.id by lia.
Qed.




Lemma fold_Zmax_ge (zs : list Z) (a : Z) :
  (a <= fold_left Z.max zs a)%Z /\ forall z, In z zs -> (z <= fold_left Z.max zs a)%Z.
Proof.
  revert a. induction zs as [|x zs IH]; intros a; cbn [fold_left].
  - split; [lia | intros z []].
  - destruct (IH (Z.max a x)) as [H1 H2].
    split; [lia|]. intros z [<- | Hz]; [lia | now apply H2].
Qed.

Lemma displayedCells_fits (m : Z) (r : Row) :
  (Z.of_nat (length (cols r)) <= m)%Z ->
  displayedCells (Some m) r
  = List.map Some (cols r) ++ repeat None (Z.to_nat m - length (cols r)).
Proof.
  intros Hfit. unfold displayedCells.
  replace (Z.to_nat m) with (length (cols r) + (Z.to_nat m - length (cols r)))%nat at 1
    by lia.
  rewrite seq_app, map_app. f_equal.
  - generalize (cols r). intros l. clear.
    induction l as [|x l IH] using rev_ind; [reflexivity|].
    rewrite length_app, Nat.add_comm. cbn [length Nat.add].
    rewrite seq_S, !map_app. cbn [List.map Nat.add]. f_equal.
    + rewrite <- IH. apply map_ext_in. intros i Hi. apply in_seq in Hi.
      rewrite nth_error_app1 by lia. reflexivity.
    + rewrite nth_error_app2 by lia. rewrite Nat.sub_diag. reflexivity.
  - cbn [Nat.add]. generalize (Z.to_nat m - length (cols r))%nat as k. intros k.
    rewrite <- (Nat.add_0_r (length (cols r))) at 1.
    generalize 0%nat as o. induction k as [|k IH]; intros o; [reflexivity|].
    cbn [seq List.map repeat]. f_equal.
    + apply nth_error_None. lia.
    + replace (S (length (cols r) + o)) with (length (cols r) + S o)%nat by lia. apply IH.
Qed.

(** X11: unless the chart is X-bar/R with a subgroup size that is empty or
    0, the preview table has at least one column and at least as many
    columns as any of its rows has readings: a row shows all its readings,
    followed by dashes. *)
Theorem preview_shows_every_reading (rawData : string) (ct : ChartType) (sz : option Z)
    (r : Row) :
  (ct = xbar_r -> exists s, sz = Some s /\ s <> 0%Z) ->
  let rows := DataGridWorkspace_parsedData rawData ct sz in
  In r rows ->
  exists m, DataGridWorkspace_maxCols rows ct sz = Some m
    /\ (1 <= m)%Z
    /\ (Z.of_nat (length (cols r)) <= m)%Z
    /\ displayedCells (Some m) r
       = List.map Some (cols r) ++ repeat None (Z.to_nat m - length (cols r)).
Proof.
  intros Hcons rows Hr.
  assert (exists m, DataGridWorkspace_maxCols rows ct sz = Some m
                    /\ (1 <= m)%Z /\ (Z.of_nat (length (cols r)) <= m)%Z)
    as (m & Hm & H1 & Hfit).
  { unfold DataGridWorkspace_maxCols. destruct (isGrouped ct sz) eqn:Hg.
    - pose proof (preview_size_pos ct sz Hg) as H2.
      pose proof (grouped_rows_lengths rawData ct sz Hg) as Hall.
      rewrite List.Forall_forall in Hall. specialize (Hall r Hr).
      exists (DataGridWorkspace_size ct sz).
      destruct ct.
      + destruct (Hcons eq_refl) as (s & -> & Hs). cbn in *.
        destruct (Z.eqb_spec s 0); [contradiction|]. split; [reflexivity | lia].
      + discriminate.
      + destruct sz as [s|]; [|discriminate]. cbn in *. apply Z.ltb_lt in Hg.
        destruct (Z.eqb_spec s 0); [lia|]. split; [reflexivity | lia].
      + destruct sz as [s|]; [|discriminate]. cbn in *. apply Z.ltb_lt in Hg.
        destruct (Z.eqb_spec s 0); [lia|]. split; [reflexivity | lia].
    - eexists. split; [reflexivity|].
      destruct (fold_Zmax_ge (List.map (fun r => Z.of_nat (length (cols r))) rows) 1)
        as [Hge Hall].
      split; [exact Hge|]. apply Hall. now apply (in_map (fun r => Z.of_nat (length (cols r)))). }
  exists m. split; [exact Hm|]. split; [exact H1|]. split; [exact Hfit|].
  now apply displayedCells_fits.
Qed.

(** The last row of seven readings in rows of three. *)
Lemma preview_shows_every_reading_witness :
  let r := {| row_id := 3; cols := [Fin 7] |} in
  let rows := DataGridWorkspace_parsedData "1 2 3 4 5 6 7" xbar_r (Some 3%Z) in
  exists m, DataGridWorkspace_maxCols rows xbar_r (Some 3%Z) = Some m
    /\ (1 <= m)%Z
    /\ (Z.of_nat (length (cols r)) <= m)%Z
    /\ displayedCells (Some m) r
       = List.map Some (cols r) ++ repeat None (Z.to_nat m - length (cols r)).
Proof.
  apply (preview_shows_every_reading "1 2 3 4 5 6 7" xbar_r (Some 3%Z)).
  - intros _. exists 3%Z. split; [reflexivity | lia].
  - vm_compute. tauto.
Defined.

(** X12: for an X-bar/R chart with the subgroup size 0, the preview cuts
    the readings in chunks of 5 ([subgroupSize || 5]) while the table has 2
    columns and the chart groups the readings by 2 ([Math.max(2, 0)]): with
    three readings or more, the first row holds at least three readings, of
    which the table shows the first two only. *)
Theorem preview_size_0_hides_readings (rawData : string) :
  let xs := allValues rawData in
  let rows := DataGridWorkspace_parsedData rawData xbar_r (Some 0%Z) in
  rows = List.map (fun j => row_of j (window 5 j xs)) (seq 0 (chunkCount (length xs) 5))
  /\ DataGridWorkspace_maxCols rows xbar_r (Some 0%Z) = Some 2%Z
  /\ List.map dp_subgroup (processedData rawData xbar_r (Some 0%Z))
     = List.map (fun j => Some (window 2 j xs)) (seq 0 (length xs / 2))
  /\ ((3 <= length xs)%nat ->
      exists r, nth_error rows 0 = Some r
        /\ (3 <= length (cols r))%nat
        /\ displayedCells (Some 2%Z) r = [nth_error xs 0; nth_error xs 1]).
Proof.
  intros xs rows. subst rows.
  rewrite (parsedData_grouped rawData xbar_r (Some 0%Z) eq_refl).
  change (Z.to_nat (DataGridWorkspace_size xbar_r (Some 0%Z))) with 5%nat. fold xs.
  split; [reflexivity|]. split; [reflexivity|]. split.
  { unfold processedData. fold xs.
    rewrite (processValues_by_groupSize xbar_r (Some 0%Z) 2 xs eq_refl eq_refl).
    rewrite map_map. reflexivity. }
  intros H3.
  assert (0 < chunkCount (length xs) 5)%nat as Hc by (apply chunkCount_spec; lia).
  destruct (chunkCount (length xs) 5) as [|c]; [lia|].
  cbn [seq List.map nth_error]. eexists. split; [reflexivity|].
  cbn [cols row_of]. rewrite length_window. split; [lia|].
  unfold displayedCells, window. cbn [Z.to_nat Pos.to_nat Pos.iter_op Nat.add seq List.map
    cols row_of Nat.mul skipn].
  destruct xs as [|a [|b [|c' xs']]]; cbn in H3; try lia. reflexivity.
Qed.

(** * More on the ingestor: lines and tokens *)

Lemma parseLine_chars_tokens (line : list ascii) :
  parseLine_chars line = accepted numericPrefix (tokens line).
Proof.
  unfold parseLine_chars. rewrite parseFloat_skip_empty. unfold split_separators.
  rewrite split_go_tokens by discriminate.
  fold (tokens (trim line)). rewrite tokens_trim.
  apply parseFloat_accepted. now apply tokens_go_no_separator.
Qed.

Lemma tokens_go_app_sep (c : ascii) (cur a b : list ascii) :
  isSeparator c = true ->
  tokens_go cur (a ++ c :: b) = tokens_go cur a ++ tokens_go [] b.
Proof.
  intros Hc. revert cur. induction a as [|x a IH]; intros cur.
  - cbn [app tokens_go]. rewrite Hc. now destruct (is_empty cur).
  - cbn [app tokens_go]. destruct (isSeparator x); [|apply IH].
    destruct (is_empty cur); now rewrite IH.
Qed.

Lemma accepted_app {A B} (f : A -> option B) (xs ys : list A) :
  accepted f (xs ++ ys) = accepted f xs ++ accepted f ys.
Proof.
  induction xs as [|x xs IH]; [reflexivity|].
  cbn. destruct (f x); cbn; now rewrite IH.
Qed.

Lemma chars_app (a b : string) : chars (a ++ b) = (chars a ++ chars b)%list.
Proof.
  unfold chars. induction a as [|c a IH]; [reflexivity|].
  simpl. f_equal. exact IH.
Qed.

(** X13: [parseLine] distributes over a separator: for a separator
    character c (a comma, a tab or white space) the values of
    [a ++ c ++ b] are the values of [a] followed by the values of [b]. *)
Theorem parseLine_app_separator (a b : string) (c : ascii) :
  isSeparator c = true ->
  parseLine (a ++ String c b) = (parseLine a ++ parseLine b)%list.
Proof.
  intros Hc. unfold parseLine. rewrite !parseLine_chars_tokens.
  rewrite chars_app. change (chars (String c b)) with (c :: chars b).
  unfold tokens. rewrite tokens_go_app_sep by assumption.
  apply accepted_app.
Qed.

(** Two tokens around a comma. *)
Lemma parseLine_app_separator_witness :
  parseLine ("1.5" ++ String "," "2abc") = parseLine "1.5" ++ parseLine "2abc".
Proof. apply (parseLine_app_separator "1.5" "2abc" ","). reflexivity. Defined.

Lemma newline_is_separator (c : ascii) : (code c =? 10)%nat = true -> isSeparator c = true.
Proof.
  intros H. apply Nat.eqb_eq in H. unfold isSeparator, isWhiteSpace. now rewrite H.
Qed.

Lemma split_lines_go_tokens (cur s : list ascii) :
  concat (List.map tokens (split_lines_go cur s)) = tokens (rev cur ++ s).
Proof.
  revert cur. induction s as [|c s IH]; intros cur.
  - cbn. now rewrite !app_nil_r.
  - cbn [split_lines_go]. destruct (code c =? 10)%nat eqn:E.
    + cbn [List.map concat]. rewrite IH. cbn [rev app].
      unfold tokens. now rewrite (tokens_go_app_sep c) by now apply newline_is_separator.
    + rewrite IH. cbn [rev]. now rewrite <- app_assoc.
Qed.

Lemma blank_line_tokens (l : list ascii) : is_empty (trim l) = true -> tokens l = [].
Proof.
  intros H. rewrite <- tokens_trim. destruct (trim l); [reflexivity | discriminate].
Qed.

Lemma concat_tokens_nonblank (ls : list (list ascii)) :
  concat (List.map tokens (List.filter (fun l => negb (is_empty (trim l))) ls))
  = concat (List.map tokens ls).
Proof.
  induction ls as [|l ls IH]; [reflexivity|].
  cbn [List.filter List.map concat]. destruct (is_empty (trim l)) eqn:E; cbn [negb].
  - rewrite IH, (blank_line_tokens l E). reflexivity.
  - cbn [List.map concat]. now rewrite IH.
Qed.

Lemma accepted_concat {A B} (f : A -> option B) (ls : list (list A)) :
  accepted f (concat ls) = concat (List.map (accepted f) ls).
Proof.
  induction ls as [|l ls IH]; [reflexivity|].
  cbn [concat List.map]. now rewrite accepted_app, IH.
Qed.

(** X14: splitting the raw text in lines, dropping the blank lines and
    parsing each line gives the same values as parsing the whole text as a
    single line: a line break acts as one more separator and nothing
    else. *)
Theorem allValues_ignores_line_breaks (rawData : string) :
  allValues rawData = parseLine rawData.
Proof.
  unfold allValues, parseLine. rewrite parseLine_chars_tokens.
  rewrite (map_ext _ _ parseLine_chars_tokens).
  rewrite <- map_map, <- accepted_concat.
  rewrite concat_tokens_nonblank. unfold split_lines.
  now rewrite split_lines_go_tokens.
Qed.

Lemma spanDigits_head (c : ascii) (r : list ascii) :
  fst (spanDigits (c :: r)) = [] <-> isDigit c = false.
Proof.
  cbn. destruct (isDigit c); [|tauto].
  destruct (spanDigits r). cbn. split; discriminate.
Qed.

Lemma spanDigits_nil : spanDigits [] = ([], []).
Proof. reflexivity. Qed.

Lemma numericPrefix_unsigned (neg : bool) (s1 : list ascii) :
  (if isPrefix (chars "Infinity") s1 then Some (Infinity neg, skipn 8 s1)
   else
     let '(ip, r1) := spanDigits s1 in
     let '(fp, r2) :=
       match r1 with
       | c :: r => if (code c =? 46)%nat then spanDigits r else ([], r1)
       | [] => ([], r1)
       end in
     match ip ++ fp with
     | [] => None
     | ds =>
         let '(e, r3) := scanExponent r2 in
         let v := inject_Z (digitsValue ds) * 10 ^ (e - Z.of_nat (length fp)) in
         Some (Fin (if neg then - v else v), r3)
     end) = None
  <-> (isPrefix (chars "Infinity") s1
       || match s1 with
          | c :: r =>
              isDigit c
              || ((code c =? 46)%nat && match r with d :: _ => isDigit d | [] => false end)
          | [] => false
          end) = false.
Proof.
  destruct (isPrefix (chars "Infinity") s1); [split; discriminate|].
  cbn [orb]. destruct s1 as [|c r].
  - cbn. tauto.
  - destruct (isDigit c) eqn:Hd.
    + cbn [orb]. cbn [spanDigits]. rewrite Hd. destruct (spanDigits r) as [ds r1].
      destruct (match r1 with
                | [] => ([], r1)
                | c0 :: r0 => if (code c0 =? 46)%nat then spanDigits r0 else ([], r1)
                end) as [fp r2].
      cbn [app]. destruct (scanExponent r2). split; discriminate.
    + cbn [orb]. cbn [spanDigits]. rewrite Hd.
      destruct (code c =? 46)%nat eqn:Hdot; cbn [andb].
      * destruct r as [|d r'].
        { cbn. tauto. }
        destruct (isDigit d) eqn:Hd'.
        { cbn [spanDigits]. rewrite Hd'. destruct (spanDigits r') as [ds r2].
          cbn [app]. destruct (scanExponent r2). split; discriminate. }
        { cbn [spanDigits]. rewrite Hd'. cbn. tauto. }
      * cbn. tauto.
Qed.

Lemma numericPrefix_None (tok : list ascii) :
  numericPrefix tok = None <-> startsNumeric tok = false.
Proof.
  unfold numericPrefix, startsNumeric, scanDecimalLiteral.
  destruct tok as [|c r].
  - cbn. tauto.
  - destruct (code c =? 43)%nat eqn:E1; cbn [orb].
    + rewrite <- (numericPrefix_unsigned false r).
      destruct (if isPrefix _ r then _ else _) as [[v rest]|]; cbn; split; congruence.
    + destruct (code c =? 45)%nat eqn:E2.
      * rewrite <- (numericPrefix_unsigned true r).
        destruct (if isPrefix _ r then _ else _) as [[v rest]|]; cbn; split; congruence.
      * rewrite <- (numericPrefix_unsigned false (c :: r)).
        destruct (if isPrefix _ (c :: r) then _ else _) as [[v rest]|]; cbn; split; congruence.
Qed.

Lemma length_accepted_numeric (toks : list (list ascii)) :
  length (accepted numericPrefix toks) = length (List.filter startsNumeric toks).
Proof.
  induction toks as [|t toks IH]; [reflexivity|].
  cbn [accepted List.filter]. pose proof (numericPrefix_None t) as H.
  destruct (numericPrefix t) as [v|], (startsNumeric t); cbn [length]; try lia.
  - destruct H as [_ H]. discriminate (H eq_refl).
  - destruct H as [H _]. discriminate (H eq_refl).
Qed.

(** X15: [parseLine] yields one number for each token that starts
    numerically (after an optional sign: [Infinity], a digit, or a dot and
    a digit) and nothing for any other token: there are never more values
    than tokens, the result is empty exactly when no token starts
    numerically, and it never holds [NaN]. *)
Theorem parseLine_counts_numeric_tokens (line : string) :
  let toks := tokens (chars line) in
  length (parseLine line) = length (List.filter startsNumeric toks)
  /\ (length (parseLine line) <= length toks)%nat
  /\ (parseLine line = [] <-> Forall (fun t => startsNumeric t = false) toks)
  /\ Forall (fun n => isNaN n = false) (parseLine line).
Proof.
  intros toks. unfold parseLine. rewrite parseLine_chars_tokens. fold toks.
  pose proof (length_accepted_numeric toks) as Hlen.
  split; [exact Hlen|]. split.
  { rewrite Hlen. apply filter_length_le. }
  split.
  - split.
    + intros E. rewrite E in Hlen. cbn in Hlen. symmetry in Hlen.
      apply length_zero_iff_nil in Hlen.
      apply List.Forall_forall. intros t Ht.
      destruct (startsNumeric t) eqn:Es; [|reflexivity].
      assert (In t (List.filter startsNumeric toks)) as Hin by (apply filter_In; auto).
      rewrite Hlen in Hin. destruct Hin.
    + intros Hall. apply length_zero_iff_nil. rewrite Hlen.
      apply length_zero_iff_nil. clear Hlen. revert Hall. generalize toks.
      induction 1 as [|t l Ht _ IH]; [reflexivity|].
      cbn. now rewrite Ht.
  - generalize toks. intros l. induction l as [|t l IH]; [constructor|].
    cbn [accepted]. unfold numericPrefix at 1.
    destruct (scanDecimalLiteral t) as [[v rest]|] eqn:E; cbn [option_map fst]; [|exact IH].
    constructor; [|exact IH]. now apply (scanDecimalLiteral_not_NaN t v rest).
Qed.

(** * More on the subgrouper and the charts: invariants *)

(** ** Means *)




Lemma fold_Qplus_bounds (lo hi : Q) (qs : list Q) (a : Q) :
  Forall (fun q => lo <= q <= hi) qs ->
  a + inject_Z (Z.of_nat (length qs)) * lo <= fold_left Qplus qs a
  /\ fold_left Qplus qs a <= a + inject_Z (Z.of_nat (length qs)) * hi.
Proof.
  intros Hqs. revert a. induction Hqs as [|q qs Hq _ IH]; intros a.
  - cbn [fold_left length]. change (inject_Z (Z.of_nat 0)) with 0. split; lra.
  - cbn [fold_left length]. destruct (IH (a + q)) as [H1 H2].
    assert (inject_Z (Z.of_nat (S (length qs))) == inject_Z (Z.of_nat (length qs)) + 1) as ->.
    { unfold Qeq. cbn. lia. }
    split; lra.
Qed.

(** The mean of a non-empty list lies between bounds of its elements. *)
Lemma rawMean_bounds (lo hi : Q) (qs : list Q) :
  qs <> [] -> Forall (fun q => lo <= q <= hi) qs -> lo <= rawMean qs <= hi.
Proof.
  intros Hne Hqs. unfold rawMean.
  destruct (fold_Qplus_bounds lo hi qs 0 Hqs) as [H1 H2].
  assert (length_or_1 qs = length qs) as ->.
  { unfold length_or_1. destruct qs; [congruence | reflexivity]. }
  assert (0 < inject_Z (Z.of_nat (length qs))) as Hn.
  { destruct qs; [congruence|]. unfold Qlt. cbn. lia. }
  split.
  - apply Qle_shift_div_l; [exact Hn | lra].
  - apply Qle_shift_div_r; [exact Hn | lra].
Qed.

Lemma calculateMean_rawMean (qs : list Q) :
  calculateMean (List.map Fin qs) = Fin (rawMean qs).
Proof. apply calculateMean_Fin. Qed.

(** ** Subgroups *)

(** X16: in grouped mode the size that is used is at least 2, every
    subgroup holds exactly that many readings, the subgroups laid end to
    end are the first [length - length mod size] readings in their order
    (only the tail is dropped; nothing is repeated or reordered), and the
    subgroups are numbered 1, 2, ... *)
Theorem subgroups_are_a_prefix (ct : ChartType) (s : Z) (xs : list number) :
  isGrouped ct (Some s) = true ->
  exists (size : Z) (ws : list (list number)),
    groupSize ct (Some s) = Some size /\ (2 <= size)%Z
    /\ let n := Z.to_nat size in
       let groups := processValues xs ct (Some s) in
       List.map dp_subgroup groups = List.map Some ws
       /\ Forall (fun w => length w = n) ws
       /\ concat ws = firstn (length xs - length xs mod n) xs
       /\ List.map dp_id groups = seq 1 (length groups).
Proof.
  intros Hg.
  assert (exists size, groupSize ct (Some s) = Some size) as [size Hsize].
  { destruct ct; cbn; eauto. }
  pose proof (groupSize_ge_2 ct (Some s) size Hg Hsize) as H2.
  exists size, (List.map (fun j => window (Z.to_nat size) j xs)
                  (seq 0 (length xs / Z.to_nat size))).
  split; [exact Hsize|]. split; [exact H2|]. intros n groups.
  subst groups. rewrite (processValues_by_groupSize ct (Some s) size xs Hg Hsize). fold n.
  split; [now rewrite !map_map|]. split; [|split].
  - apply List.Forall_forall. intros w Hw. apply in_map_iff in Hw as (j & <- & Hj).
    apply in_seq in Hj. rewrite length_window.
    assert (0 < n)%nat as Hn by (subst n; lia).
    pose proof (proj2 (div_lt_iff (length xs) n j Hn)). lia.
  - rewrite concat_windows. f_equal.
    pose proof (Nat.div_mod_eq (length xs) n). lia.
  - rewrite map_map, length_map, length_seq. cbn [dp_id subgroup_of].
    rewrite <- seq_shift. apply map_ext. intros a. lia.
Qed.

(** Seven readings on an EWMA chart with subgroups of three. *)
Lemma subgroups_are_a_prefix_witness :
  let xs := List.map Fin [1; 2; 3; 4; 5; 6; 7] in
  exists (size : Z) (ws : list (list number)),
    groupSize ewma (Some 3%Z) = Some size /\ (2 <= size)%Z
    /\ let n := Z.to_nat size in
       let groups := processValues xs ewma (Some 3%Z) in
       List.map dp_subgroup groups = List.map Some ws
       /\ Forall (fun w => length w = n) ws
       /\ concat ws = firstn (length xs - length xs mod n) xs
       /\ List.map dp_id groups = seq 1 (length groups).
Proof.
  apply (subgroups_are_a_prefix ewma 3 (List.map Fin [1; 2; 3; 4; 5; 6; 7])). reflexivity.
Defined.

Lemma Forall_window {A} (P : A -> Prop) (n k : nat) (xs : list A) :
  Forall P xs -> Forall P (window n k xs).
Proof.
  intros H. unfold window. apply Forall_take, Forall_drop, H.
Qed.



(** ** Points of a series *)


(** ** EWMA with lambda = 1 *)

Lemma sqrt_floor_one (q : Q) : q == 1 -> sqrt_floor q == 1.
Proof.
  intros Hq. unfold Qeq in Hq. cbn in Hq. rewrite Z.mul_1_r, Z.mul_1_l in Hq.
  unfold sqrt_floor. rewrite Hq, Z.mul_comm, Z.div_mul by discriminate.
  reflexivity.
Qed.

(** With lambda = 1 the smoothed value is the reading itself. *)
Lemma ewma_z_lambda_1 (z0 : Q) (qs : list Q) :
  exists zq : list Q,
    ewma_z (Fin 1) (Fin z0) (List.map Fin qs) = List.map Fin zq
    /\ Forall2 Qeq zq qs.
Proof.
  revert z0. induction qs as [|q qs IH]; intros z0.
  - exists []. split; [reflexivity | constructor].
  - destruct (IH (1 * q + (1 - 1) * z0)) as (zq & Hz & Hall).
    exists ((1 * q + (1 - 1) * z0) :: zq).
    split; [cbn [List.map ewma_z Num.add Num.sub Num.mul]; now rewrite Hz|].
    constructor; [ring | exact Hall].
Qed.

(** With lambda = 1 the radicand of the width factor is 1 at every
    point. *)
Lemma term_lambda_1 (sqrtQ : Q -> Q) (i : nat) :
  (forall q, q == 1 -> sqrtQ q == 1) ->
  exists t, term sqrtQ (Fin 1) (S i) = Fin t /\ t == 1.
Proof.
  intros Hsqrt.
  destruct (term_Fin sqrtQ 1 (S i)) as [_ ->]; [split; reflexivity || discriminate|].
  eexists. split; [reflexivity|]. apply Hsqrt.
  replace (2 * Z.of_nat (S i))%Z with (Z.of_nat (S (2 * i + 1))) by lia.
  rewrite Qpower_succ. field.
Qed.

(** X18: for a square root that maps one to one, and finite readings, L,
    mean and sigma, the EWMA chart with lambda = 1 is the chart of the
    readings themselves: it has one point per reading, each equal to its
    reading, and limits that are the same at every point,
    mean + L sigma and mean - L sigma. *)
Theorem ewma_lambda_1_plots_readings (sqrtQ : Q -> Q) (pd : list DataPoint)
    (st : Settings) (qs : list Q) (Lq m s : Q) :
  (forall q, q == 1 -> sqrtQ q == 1) ->
  pd <> [] -> List.map dp_value pd = List.map Fin qs ->
  chartType st = ewma -> lambda st = Fin 1 -> ewmaL st = Fin Lq ->
  let r := chartStats sqrtQ pd st in
  mean r = Fin m -> sigma r = Fin s ->
  exists (main : Chart) (zq uq lq : list Q),
    mainChart r = Some main
    /\ data main = mapi (fun z j => {| px := j + 1; py := Fin z |}) zq
    /\ ucl main = PerPoint (List.map Fin uq)
    /\ lcl main = PerPoint (List.map Fin lq)
    /\ Forall2 Qeq zq qs
    /\ length uq = length qs /\ length lq = length qs
    /\ Forall (fun u => u == m + Lq * s) uq
    /\ Forall (fun l => l == m - Lq * s) lq.
Proof.
  intros Hsqrt Hne Hxs Hct Hlam HL r. subst r. unfold chartStats.
  rewrite Hct, (length_eqb_0 pd Hne), Hxs, Hlam, HL.
  unfold forEach. rewrite ewma_forEach.
  cbn [mainChart mean sigma ew_z ewmaData uclTime lclTime app].
  intros -> ->.
  destruct (ewma_z_lambda_1 m qs) as (zq & -> & Hall).
  eexists. exists zq,
    (List.map (fun j => m + Lq * s * match term sqrtQ (Fin 1) (j + 1) with
                                     | Fin t => t | _ => 0 end)
       (seq 0 (length qs))),
    (List.map (fun j => m - Lq * s * match term sqrtQ (Fin 1) (j + 1) with
                                     | Fin t => t | _ => 0 end)
       (seq 0 (length qs))).
  split; [reflexivity|]. cbn [data ucl lcl].
  split; [unfold mapi; now rewrite mapi_from_of_map|].
  rewrite !length_map, !length_seq.
  split.
  { f_equal. rewrite map_map. apply map_ext. intros j.
    replace (j + 1)%nat with (S j) by lia.
    destruct (term_lambda_1 sqrtQ j Hsqrt) as (t & -> & _). reflexivity. }
  split.
  { f_equal. rewrite map_map. apply map_ext. intros j.
    replace (j + 1)%nat with (S j) by lia.
    destruct (term_lambda_1 sqrtQ j Hsqrt) as (t & -> & _). reflexivity. }
  split; [exact Hall|]. split; [reflexivity|]. split; [reflexivity|].
  split; apply List.Forall_forall; intros v Hv; apply in_map_iff in Hv as (j & <- & _);
    replace (j + 1)%nat with (S j) by lia;
    destruct (term_lambda_1 sqrtQ j Hsqrt) as (t & -> & Ht); rewrite Ht; ring.
Qed.

(** The readings 7 and 9 against the supplied baseline 8, 2, with L = 3. *)
Lemma ewma_lambda_1_plots_readings_witness :
  let pd := processedData "7 9" ewma (Some 1%Z) in
  let st := {| chartType := ewma; phase := phase2; subgroupSize := Some 1%Z;
               targetMean := Some (Fin 8); targetSigma := Some (Fin 2);
               lambda := Fin 1; ewmaL := Fin 3;
               cusumHParam := Fin 5; cusumKParam := Fin 0.5 |} in
  let r := chartStats sqrt_floor pd st in
  exists (main : Chart) (zq uq lq : list Q),
    mainChart r = Some main
    /\ data main = mapi (fun z j => {| px := j + 1; py := Fin z |}) zq
    /\ ucl main = PerPoint (List.map Fin uq)
    /\ lcl main = PerPoint (List.map Fin lq)
    /\ Forall2 Qeq zq [7; 9]
    /\ length uq = 2%nat /\ length lq = 2%nat
    /\ Forall (fun u => u == 8 + 3 * 2) uq
    /\ Forall (fun l => l == 8 - 3 * 2) lq.
Proof.
  intros pd st r.
  apply (ewma_lambda_1_plots_readings sqrt_floor pd st [7; 9] 3 8 2).
  - exact sqrt_floor_one.
  - vm_compute. discriminate.
  - vm_compute. reflexivity.
  - reflexivity.
  - reflexivity.
  - reflexivity.
  - reflexivity.
  - reflexivity.
Defined.


(** ** Capability indices: how they relate *)



(** ** When a chart is drawn *)

Lemma chartStats_no_data (sqrtQ : Q -> Q) (st : Settings) :
  chartStats sqrtQ [] st
  = {| mainChart := None; secondChart := None; sigma := Fin 0; mean := Fin 0 |}.
Proof. reflexivity. Qed.

Lemma chartStats_mainChart (sqrtQ : Q -> Q) (pd : list DataPoint) (st : Settings) :
  pd <> [] -> mainChart (chartStats sqrtQ pd st) <> None.
Proof.
  intros Hne. unfold chartStats. rewrite (length_eqb_0 pd Hne).
  destruct (chartType st); discriminate.
Qed.

Lemma length_processValues_ungrouped (ct : ChartType) (sz : option Z) (xs : list number) :
  isGrouped ct sz = false -> length (processValues xs ct sz) = length xs.
Proof.
  intros H. rewrite processValues_ungrouped by assumption. apply length_mapi_from.
Qed.

(** X21: with a subgroup size s, there is no main chart exactly when the
    parsed readings are fewer than one subgroup (in grouped mode:
    max(2, s) readings for X-bar/R, s for EWMA and CUSUM) or, in ungrouped
    mode, when there is no reading at all.  There is then no second chart
    either, sigma and the mean are 0 and every capability index is
    null. *)
Theorem chart_needs_a_full_subgroup (sqrtQ : Q -> Q) (rawData : string)
    (st : Settings) (s : Z) (usl lsl : option number) :
  subgroupSize st = Some s ->
  let ct := chartType st in
  let pd := processedData rawData ct (Some s) in
  let r := chartStats sqrtQ pd st in
  let needed :=
    if isGrouped ct (Some s)
    then Z.to_nat (match ct with xbar_r => Z.max 2 s | _ => s end)
    else 1%nat in
  (mainChart r = None <-> (length (allValues rawData) < needed)%nat)
  /\ (mainChart r = None ->
      secondChart r = None /\ is_value (sigma r) 0 /\ is_value (mean r) 0
      /\ StatisticsDashboard r usl lsl = noCapability).
Proof.
  intros Hsz ct pd r needed.
  assert (pd = [] <-> (length (allValues rawData) < needed)%nat) as Hpd.
  { subst pd needed. unfold processedData.
    destruct (isGrouped ct (Some s)) eqn:Hg.
    - assert (groupSize ct (Some s)
              = Some (match ct with xbar_r => Z.max 2 s | _ => s end)) as Hsize.
      { now destruct ct. }
      pose proof (groupSize_ge_2 _ _ _ Hg Hsize) as H2.
      rewrite (processValues_by_groupSize _ _ _ _ Hg Hsize).
      set (n := Z.to_nat _). assert (0 < n)%nat as Hn by (subst n; lia).
      pose proof (div_lt_iff (length (allValues rawData)) n 0 Hn) as Hd.
      destruct (length (allValues rawData) / n)%nat eqn:E.
      + cbn. split; [intros _; lia | reflexivity].
      + cbn [seq List.map]. split; [discriminate | lia].
    - pose proof (length_processValues_ungrouped ct (Some s) (allValues rawData) Hg) as HL.
      destruct (processValues (allValues rawData) ct (Some s)); cbn in HL.
      + split; [lia | reflexivity].
      + split; [discriminate | lia]. }
  assert (mainChart r = None <-> pd = []) as Hmain.
  { split.
    - intros H. destruct pd as [|d pd'] eqn:E; [reflexivity|].
      exfalso. apply (chartStats_mainChart sqrtQ (d :: pd') st); [discriminate | exact H].
    - intros E. subst r. now rewrite E. }
  split; [now rewrite Hmain|].
  intros H. apply Hmain in H. subst r. rewrite H.
  split; [reflexivity|]. split; [reflexivity|]. split; [reflexivity|].
  now apply StatisticsDashboard_sigma_0.
Qed.

(** Two readings for subgroups of three. *)
Lemma chart_needs_a_full_subgroup_witness :
  let st := initialSettings xbar_r (Some 3%Z) in
  let r := chartStats sqrt_floor (processedData "1 2" xbar_r (Some 3%Z)) st in
  (mainChart r = None <-> (length (allValues "1 2") < 3)%nat)
  /\ (mainChart r = None ->
      secondChart r = None /\ is_value (sigma r) 0 /\ is_value (mean r) 0
      /\ StatisticsDashboard r (Some (Fin 13)) (Some (Fin 7)) = noCapability).
Proof.
  apply (chart_needs_a_full_subgroup sqrt_floor "1 2" (initialSettings xbar_r (Some 3%Z)) 3).
  reflexivity.
Defined.

(** ** I-MR: the limits are ordered *)




(** ** The constants that are used *)

(** Whatever the sample size, the row that is used has A2 > 0,
    0 <= D3 < 1 < D4 and d2 > 1. *)
Lemma selectConstants_shape (n : Z) :
  exists a d3 d4 dd : Q,
    selectConstants n = {| A2 := Fin a; D3 := Fin d3; D4 := Fin d4; d2 := Fin dd |}
    /\ 0 < a /\ 0 <= d3 /\ d3 < 1 /\ 1 < d4 /\ 1 < dd.
Proof.
  assert ((n < 2 \/ 10 < n) \/ n = 2 \/ n = 3 \/ n = 4 \/ n = 5 \/ n = 6 \/ n = 7
          \/ n = 8 \/ n = 9 \/ n = 10)%Z as [Hout | Hcases] by lia.
  - unfold selectConstants. rewrite (STAT_CONSTANTS_outside n Hout).
    do 4 eexists. split; [reflexivity|]. repeat split; reflexivity || discriminate.
  - repeat (destruct Hcases as [-> | Hcases];
            [do 4 eexists; split; [vm_compute; reflexivity|];
             repeat split; reflexivity || discriminate |]).
    subst n. do 4 eexists. split; [vm_compute; reflexivity|].
    repeat split; reflexivity || discriminate.
Qed.

(** ** Subgroups of finite readings *)

Lemma In_window {A} (n k : nat) (xs : list A) (x : A) :
  In x (window n k xs) -> In x xs.
Proof.
  unfold window. intros H.
  rewrite <- (firstn_skipn (k * n) xs). apply in_or_app. right.
  rewrite <- (firstn_skipn n (skipn (k * n) xs)). apply in_or_app. now left.
Qed.

Lemma range_or_0_subgroup (size : Z) (j : nat) (w : list Q) :
  w <> [] ->
  exists r, range_or_0 (subgroup_of size j (List.map Fin w)) = Fin r
            /\ r == Qmax_list w - Qmin_list w.
Proof.
  intros Hw. unfold range_or_0. cbn [subgroup_of dp_range].
  rewrite range_Fin by exact Hw. unfold Num.or. cbn [Num.truthy].
  destruct (Qeq_bool (Qmax_list w - Qmin_list w) 0) eqn:E; cbn [negb].
  - exists 0. split; [reflexivity|]. apply Qeq_bool_iff in E. now rewrite E.
  - eexists. split; reflexivity.
Qed.

(** The values and ranges of the subgroups of finite readings. *)
Lemma grouped_values_ranges (ct : ChartType) (sz : option Z) (size : Z) (qs : list Q) :
  isGrouped ct sz = true -> groupSize ct sz = Some size ->
  let ws := List.map (fun j => window (Z.to_nat size) j qs)
              (seq 0 (length qs / Z.to_nat size)) in
  let pd := processValues (List.map Fin qs) ct sz in
  Forall (fun w => w <> [] /\ forall q, In q w -> In q qs) ws
  /\ List.map dp_value pd = List.map Fin (List.map rawMean ws)
  /\ exists rs, List.map range_or_0 pd = List.map Fin rs
                /\ Forall2 (fun r w => r == Qmax_list w - Qmin_list w) rs ws.
Proof.
  intros Hg Hsize ws pd.
  pose proof (groupSize_ge_2 ct sz size Hg Hsize) as H2.
  assert (Forall (fun w => w <> [] /\ forall q, In q w -> In q qs) ws) as Hws.
  { apply List.Forall_forall. intros w Hw. apply in_map_iff in Hw as (j & <- & Hj).
    apply in_seq in Hj. split.
    - intros E. apply (f_equal (@length Q)) in E. rewrite length_window in E.
      assert (0 < Z.to_nat size)%nat as Hn by lia.
      pose proof (proj2 (div_lt_iff (length qs) (Z.to_nat size) j Hn)). cbn in E. lia.
    - intros q Hq. exact (In_window _ _ _ _ Hq). }
  split; [exact Hws|].
  assert (pd = List.map (fun w => subgroup_of size (fst w) (List.map Fin (snd w)))
                 (List.map (fun j => (j, window (Z.to_nat size) j qs))
                    (seq 0 (length qs / Z.to_nat size)))) as Hpd.
  { subst pd. rewrite (processValues_by_groupSize ct sz size _ Hg Hsize).
    rewrite length_map, map_map. apply map_ext. intros j. cbn [fst snd].
    now rewrite window_map. }
  assert (ws = List.map snd (List.map (fun j => (j, window (Z.to_nat size) j qs))
                               (seq 0 (length qs / Z.to_nat size)))) as Hws'.
  { subst ws. rewrite map_map. reflexivity. }
  rewrite Hpd. rewrite Hws' in Hws |- *. clear Hpd Hws'.
  generalize dependent (List.map (fun j => (j, window (Z.to_nat size) j qs))
                          (seq 0 (length qs / Z.to_nat size))).
  intros l Hl. split.
  - rewrite !map_map. apply map_ext. intros [j w]. cbn [fst snd subgroup_of dp_value].
    apply calculateMean_rawMean.
  - induction l as [|[j w] l IH]; [exists []; split; [reflexivity | constructor]|].
    cbn [List.map fst snd] in *. inversion Hl as [|? ? [Hw _] Hl']; subst.
    destruct (IH Hl') as (rs & Hrs & Hall).
    destruct (range_or_0_subgroup size j w Hw) as (r & Hr & Hrv).
    exists (r :: rs). split; [cbn [List.map]; now rewrite Hr, Hrs|].
    now constructor.
Qed.


(** ** X-bar/R: the limits are ordered *)



(** ** A series without spread *)

Lemma rawMean_const (c : Q) (qs : list Q) :
  qs <> [] -> Forall (fun q => q == c) qs -> rawMean qs == c.
Proof.
  intros Hne Hqs.
  assert (c <= rawMean qs <= c) as H; [|lra].
  apply rawMean_bounds; [exact Hne|].
  eapply List.Forall_impl; [|exact Hqs]. cbn. intros q Hq. lra.
Qed.

Lemma rawMean_zero (qs : list Q) : Forall (fun q => q == 0) qs -> rawMean qs == 0.
Proof.
  intros Hqs. destruct qs as [|q qs]; [reflexivity|].
  now apply rawMean_const.
Qed.


Lemma consecutiveRanges_const (c : Q) (qs : list Q) :
  Forall (fun q => q == c) qs -> Forall (fun r => r == 0) (consecutiveRanges qs).
Proof.
  intros Hqs. induction qs as [|a [|b qs] IH]; try constructor.
  - inversion Hqs as [|? ? Ha Hqs']; subst. inversion Hqs' as [|? ? Hb _]; subst.
    assert (b - a == 0) as E by lra. exact (Qabs_wd _ _ E).
  - apply IH. now inversion Hqs.
Qed.

(** The chart values of a constant series are that constant, with or
    without subgroups. *)
Lemma processValues_const (ct : ChartType) (s : Z) (c : Q) (qs : list Q) :
  Forall (fun q => q == c) qs ->
  let pd := processValues (List.map Fin qs) ct (Some s) in
  (exists vs, List.map dp_value pd = List.map Fin vs /\ Forall (fun v => v == c) vs)
  /\ (isGrouped ct (Some s) = true ->
      exists rs, List.map range_or_0 pd = List.map Fin rs /\ Forall (fun r => r == 0) rs).
Proof.
  intros Hqs pd. rewrite List.Forall_forall in Hqs.
  destruct (isGrouped ct (Some s)) eqn:Hg.
  - assert (exists size, groupSize ct (Some s) = Some size) as [size Hsize].
    { destruct ct; cbn; eauto. }
    destruct (grouped_values_ranges ct (Some s) size qs Hg Hsize)
      as (Hws & Hvals & rs & Hrs & Hall).
    fold pd in Hvals, Hrs.
    set (ws := List.map _ (seq 0 _)) in *. clearbody ws.
    assert (Forall (fun w : list Q => w <> [] /\ Forall (fun q => q == c) w) ws) as Hws'.
    { eapply List.Forall_impl; [|exact Hws]. cbn. intros w [Hne Hin].
      split; [exact Hne|]. apply List.Forall_forall. intros q Hq. apply Hqs, Hin, Hq. }
    split.
    + eexists. split; [exact Hvals|]. clear Hvals Hws Hall.
      induction Hws' as [|w ws [Hne Hw] _ IH]; [constructor|].
      cbn [List.map]. constructor; [now apply rawMean_const | exact IH].
    + intros _. exists rs. split; [exact Hrs|]. clear Hrs Hvals Hws.
      induction Hall as [|r w rs ws Hr _ IH]; [constructor|].
      inversion Hws' as [|? ? [Hne Hw] Hws'']; subst.
      constructor; [|now apply IH].
      rewrite List.Forall_forall in Hw.
      rewrite Hr, (Hw _ (Qmax_list_In w Hne)), (Hw _ (Qmin_list_In w Hne)). ring.
  - split; [|discriminate]. exists qs. subst pd.
    rewrite processValues_ungrouped_values by exact Hg.
    split; [reflexivity | now apply List.Forall_forall].
Qed.

(** X24: on the I-MR chart (without the supplied baseline) and on the
    X-bar/R chart (with or without it), for every subgroup size, a series
    of finite readings that are all equal has sigma = 0, so that every
    capability index is null; without the supplied baseline all control
    limits of both charts are then on the centre line. *)
Theorem constant_series_no_spread (sqrtQ : Q -> Q) (c : Q) (qs : list Q)
    (st : Settings) (s : Z) (usl lsl : option number) :
  Forall (fun q => q == c) qs ->
  chartType st = imr \/ chartType st = xbar_r ->
  (chartType st = imr -> usePhase2 st = false) ->
  let r := chartStats sqrtQ (processValues (List.map Fin qs) (chartType st) (Some s)) st in
  is_value (sigma r) 0
  /\ StatisticsDashboard r usl lsl = noCapability
  /\ forall ch, mainChart r = Some ch \/ secondChart r = Some ch ->
       usePhase2 st = false ->
       exists m, is_value (cl ch) m /\ limit_value (ucl ch) m /\ limit_value (lcl ch) m.
Proof.
  intros Hqs Htype Hph r.
  destruct (processValues_const (chartType st) s c qs Hqs) as ((vs & Hvs & Hvc) & Hranges).
  set (pd := processValues (List.map Fin qs) (chartType st) (Some s)) in *.
  assert (forall a b, a == 0 -> a / b == 0) as Hdiv by (intros a b ->; unfold Qdiv; ring).
  assert (pd = processValues (List.map Fin qs) (chartType st) (Some s)) as Epd
    by reflexivity.
  clearbody pd.
  assert (pd = [] \/ pd <> []) as [E | Hne]
    by (destruct pd; [now left | right; discriminate]).
  { subst r. rewrite E. cbn. split; [reflexivity|]. split; [reflexivity|].
    intros ch [H | H]; discriminate. }
  assert (is_value (sigma r) 0
          /\ forall ch, mainChart r = Some ch \/ secondChart r = Some ch ->
               usePhase2 st = false ->
               exists m, is_value (cl ch) m /\ limit_value (ucl ch) m
                         /\ limit_value (lcl ch) m)
    as [Hs Hlim]; [|split; [exact Hs | split; [now apply StatisticsDashboard_sigma_0 | exact Hlim]]].
  subst r. destruct Htype as [Hct | Hct]; rewrite Hct in *.
  - (* I-MR *)
    unfold chartStats. rewrite (length_eqb_0 pd Hne), Hct, (Hph eq_refl).
    assert (List.map dp_value pd = List.map Fin qs) as ->.
    { rewrite Epd. now apply processValues_ungrouped_values. }
    rewrite movingRanges_Fin, !calculateMean_rawMean.
    cbn [sigma mainChart secondChart].
    change (Fin (rawMean (consecutiveRanges qs)) / Fin 1.128)%num
      with (Fin (rawMean (consecutiveRanges qs) / 1.128)).
    pose proof (rawMean_zero _ (consecutiveRanges_const c qs Hqs)) as Hmr.
    split; [cbn; now apply Hdiv|].
    intros ch Hch _.
    destruct Hch as [[= <-] | [= <-]]; eexists;
      cbn [ucl lcl cl limit_value is_value Num.add Num.sub Num.mul];
      (split; [reflexivity|]); rewrite ?(Hdiv _ 1.128 Hmr), ?Hmr; split; ring.
  - (* X-bar/R *)
    rewrite chartStats_xbar_r by assumption.
    destruct (Hranges eq_refl) as (rs & Hrs & Hrz).
    destruct (selectConstants_shape (sampleSize_or_2 pd)) as
      (a & d3 & d4 & dd & -> & Ha & Hd3 & Hd3' & Hd4 & Hdd).
    unfold xbar_r_stats. rewrite Hrs, Hvs, !calculateMean_rawMean.
    cbn [sigma mainChart secondChart A2 D3 D4 d2 Num.div].
    assert (Qeq_bool dd 0 = false) as -> by (apply Qeq_bool_false; lra).
    pose proof (rawMean_zero rs Hrz) as Hmr.
    split; [cbn; now apply Hdiv|].
    intros ch Hch Hp1. rewrite Hp1 in Hch.
    destruct Hch as [[= <-] | [= <-]]; eexists;
      cbn [ucl lcl cl limit_value is_value Num.add Num.sub Num.mul];
      (split; [reflexivity|]); rewrite Hmr; split; ring.
Qed.

(** Four readings 5 on an X-bar/R chart with subgroups of two. *)
Lemma constant_series_no_spread_witness :
  let st := initialSettings xbar_r (Some 2%Z) in
  let r := chartStats sqrt_floor
             (processValues (List.map Fin [5; 5; 5; 5]) (chartType st) (Some 2%Z)) st in
  is_value (sigma r) 0
  /\ StatisticsDashboard r (Some (Fin 13)) (Some (Fin 7)) = noCapability
  /\ forall ch, mainChart r = Some ch \/ secondChart r = Some ch ->
       usePhase2 st = false ->
       exists m, is_value (cl ch) m /\ limit_value (ucl ch) m /\ limit_value (lcl ch) m.
Proof.
  apply (constant_series_no_spread sqrt_floor 5 [5; 5; 5; 5]
           (initialSettings xbar_r (Some 2%Z)) 2).
  - repeat constructor.
  - right. reflexivity.
  - discriminate.
Defined.
